(** * MPInterfaces: the measurement pipeline of [mpinterfaces/measurement.py]

    A shallow embedding of the three derivation steps ([Measurement],
    [MeasurementSolvation], [MeasurementInterface]) together with the part of
    the Python run time they rely on: late-bound module names, exceptions,
    a small file system and the calibration objects they mutate.

    Conventions.
    - A Python object that is shared and mutated (a calibrate object) lives
      in a store and is named by a reference; [cal_objs] is a list of
      references, so the same object may occur in it more than once.
    - A statement sequence is a computation [M A] that always hands back the
      world it reached, also when it raises: Python keeps every mutation made
      before an exception.
    - Floats are carried as rationals; the code only stores and moves them. *)

From stdpp Require Import base strings gmap list pretty functions.
From Stdlib Require Import Ascii QArith.

Close Scope Q_scope.
Open Scope string_scope.

(** ** Python values, exceptions *)

(** Paths are strings and object references are numbers; both names are
    spelling only. *)
Abbreviation path := string (only parsing).
Abbreviation ref := nat (only parsing).

(** [os.sep] on a POSIX system. *)
Definition os_sep : ascii := "/"%char.
Definition sep : string := String os_sep "".

#[warnings="-register-all"]
Inductive pyval :=
| PInt (z : Z)
| PFloat (q : Q)
| PStr (s : string)
| PList (l : list pyval).

(** An exception instance: the name of its class and its argument. *)
Record exn := Exn { exn_class : string; exn_arg : string }.

Definition NameError (n : string) := Exn "NameError" n.
Definition AttributeError (a : string) := Exn "AttributeError" a.
Definition IndexError := Exn "IndexError" "list index out of range".
Definition KeyError (k : string) := Exn "KeyError" k.
Definition IOError (p : path) := Exn "IOError" p.
Definition TypeError (m : string) := Exn "TypeError" m.
Definition ValueError (m : string) := Exn "ValueError" m.

Inductive outcome (A : Type) :=
| Return (a : A)
| Raise (e : exn).
Arguments Return {A} a.
Arguments Raise {A} e.

(** ** The collaborators' data *)

(** A job descriptor; the pipeline only reads its [name]. *)
Record Job := { name : string }.

(** The object behind [cal.system].  Python reads its attributes by name, and
    a missing one raises [AttributeError]; [ligand_formula] stands for the
    chain [ligand.composition.formula]. *)
Record System := {
  miller_index : option (list Z);
  ligand_formula : option string;
  n_ligands : option pyval }.

(** Modelled from the spec: the class hierarchy of [mpinterfaces.calibrate]
    is not part of the sources at hand; the spec describes the classes that
    [isinstance] tests as three disjoint kinds, any other class matching
    none of them. *)
Inductive CalKind := CalibrateSlab | CalibrateInterface | CalibrateMolecule | CalibrateOther.

Inductive file :=
| FData (s : string)
| FJson (d : gmap string pyval).

(** What [Poscar.from_file] hands back: the structure as read. *)
Abbreviation Poscar := file (only parsing).

(** A calibrate object.  [old_jobs] and [old_job_dir_list] are attributes
    that only [Measurement.__init__] creates, hence optional. *)
Record Calibrate := {
  kind : CalKind;
  incar : gmap string pyval;
  poscar : option Poscar;
  jobs : list Job;
  job_dir_list : list path;
  old_jobs : option (list Job);
  old_job_dir_list : option (list path);
  system : option System }.

(** One result record of the output parser. *)
Record Entry := { energy : Q }.

Inductive level := DEBUG | INFO | CRITICAL.

(** Calls that leave the pipeline, in the order they are made. *)
Inductive event :=
| EvLog (lvl : level) (fmt : string) (args : list pyval)
| EvAddJob (cal : ref) (job_dir : path)
| EvMakedirs (d : path)
| EvWrite (p : path) (f : file)
| EvCopy (src dst : path).

(** The world a step runs in.  The three [mod_] fields are the names that
    [measurement.py] uses without defining or importing them; Python looks
    them up in the module's globals when the statement runs.
    [mod_assimilate] stands for the pair [MPINTVaspDrone]/[BorgQueen]:
    the entries [get_data()] returns after [serial_assimilate(job_dir)]. *)
Record World := {
  store : ref -> Calibrate;
  files : gmap path file;
  dirs : gset path;
  trace : list event;
  mod_cal : option ref;
  mod_assimilate : option (path -> list (option Entry));
  mod_E_binding : option (gmap string pyval) }.

(** ** The computation monad *)

Definition M (A : Type) := World -> World * outcome A.

Definition ret {A} (a : A) : M A := fun w => (w, Return a).
Definition raise {A} (e : exn) : M A := fun w => (w, Raise e).
Definition bind {A B} (m : M A) (k : A -> M B) : M B :=
  fun w => match m w with
           | (w', Return a) => k a w'
           | (w', Raise e) => (w', Raise e)
           end.

Notation "x <- c1 ;; c2" := (bind c1 (fun x => c2))
  (at level 100, c1 at next level, right associativity).
Notation "c1 ;; c2" := (bind c1 (fun _ => c2))
  (at level 100, right associativity).

Definition gets {A} (f : World -> A) : M A := fun w => (w, Return (f w)).
Definition modify (f : World -> World) : M unit := fun w => (f w, Return tt).

(** [for x in l: body x] *)
Fixpoint for_each {A} (l : list A) (body : A -> M unit) : M unit :=
  match l with
  | [] => ret tt
  | x :: l' => body x ;; for_each l' body
  end.

(** A loop that also updates local variables, collected in [acc]. *)
Fixpoint for_fold {A S} (l : list A) (acc : S) (body : A -> S -> M S) : M S :=
  match l with
  | [] => ret acc
  | x :: l' => acc' <- body x acc ;; for_fold l' acc' body
  end.

(** [enumerate(l)] *)
Definition enumerate {A} (l : list A) : list (nat * A) := zip (seq 0 (length l)) l.

(** ** Primitive statements *)

Definition set_store (f : (ref -> Calibrate) -> ref -> Calibrate) (w : World) : World :=
  {| store := f (store w); files := files w; dirs := dirs w; trace := trace w;
     mod_cal := mod_cal w; mod_assimilate := mod_assimilate w;
     mod_E_binding := mod_E_binding w |}.

Definition emit (e : event) (w : World) : World :=
  {| store := store w; files := files w; dirs := dirs w; trace := trace w ++ [e];
     mod_cal := mod_cal w; mod_assimilate := mod_assimilate w;
     mod_E_binding := mod_E_binding w |}.

Definition set_files (fs : gmap path file) (w : World) : World :=
  {| store := store w; files := fs; dirs := dirs w; trace := trace w;
     mod_cal := mod_cal w; mod_assimilate := mod_assimilate w;
     mod_E_binding := mod_E_binding w |}.

Definition set_dirs (ds : gset path) (w : World) : World :=
  {| store := store w; files := files w; dirs := ds; trace := trace w;
     mod_cal := mod_cal w; mod_assimilate := mod_assimilate w;
     mod_E_binding := mod_E_binding w |}.

Definition set_E_binding (d : gmap string pyval) (w : World) : World :=
  {| store := store w; files := files w; dirs := dirs w; trace := trace w;
     mod_cal := mod_cal w; mod_assimilate := mod_assimilate w;
     mod_E_binding := Some d |}.

(** [obj.attr = v] on the object behind [cal]. *)
Definition update (cal : ref) (f : Calibrate -> Calibrate) : M unit :=
  modify (set_store (fun st => <[cal := f (st cal)]> st)).

Definition with_incar (k : string) (v : pyval) (c : Calibrate) : Calibrate :=
  {| kind := kind c; incar := <[k := v]> (incar c); poscar := poscar c;
     jobs := jobs c; job_dir_list := job_dir_list c; old_jobs := old_jobs c;
     old_job_dir_list := old_job_dir_list c; system := system c |}.

Definition with_poscar (p : Poscar) (c : Calibrate) : Calibrate :=
  {| kind := kind c; incar := incar c; poscar := Some p;
     jobs := jobs c; job_dir_list := job_dir_list c; old_jobs := old_jobs c;
     old_job_dir_list := old_job_dir_list c; system := system c |}.

Definition with_jobs (js : list Job) (c : Calibrate) : Calibrate :=
  {| kind := kind c; incar := incar c; poscar := poscar c;
     jobs := js; job_dir_list := job_dir_list c; old_jobs := old_jobs c;
     old_job_dir_list := old_job_dir_list c; system := system c |}.

Definition with_job_dir_list (ds : list path) (c : Calibrate) : Calibrate :=
  {| kind := kind c; incar := incar c; poscar := poscar c;
     jobs := jobs c; job_dir_list := ds; old_jobs := old_jobs c;
     old_job_dir_list := old_job_dir_list c; system := system c |}.

Definition with_old_jobs (js : list Job) (c : Calibrate) : Calibrate :=
  {| kind := kind c; incar := incar c; poscar := poscar c;
     jobs := jobs c; job_dir_list := job_dir_list c; old_jobs := Some js;
     old_job_dir_list := old_job_dir_list c; system := system c |}.

Definition with_old_job_dir_list (ds : list path) (c : Calibrate) : Calibrate :=
  {| kind := kind c; incar := incar c; poscar := poscar c;
     jobs := jobs c; job_dir_list := job_dir_list c; old_jobs := old_jobs c;
     old_job_dir_list := Some ds; system := system c |}.

(** Reading an attribute that may be missing. *)
Definition attr {A} (o : option A) (a : string) : M A :=
  match o with
  | Some x => ret x
  | None => raise (AttributeError a)
  end.

(** [l[i]] on a list. *)
Definition index {A} (l : list A) (i : nat) : M A :=
  match l !! i with
  | Some x => ret x
  | None => raise IndexError
  end.

(** [d[k]] on a dict. *)
Definition getitem {A} (d : gmap string A) (k : string) : M A :=
  match d !! k with
  | Some x => ret x
  | None => raise (KeyError k)
  end.

Definition log (lvl : level) (fmt : string) (args : list pyval) : M unit :=
  modify (emit (EvLog lvl fmt args)).

(** [s.replace(old, new)] for one-character [old] and [new]. *)
Fixpoint replace (old new : ascii) (s : string) : string :=
  match s with
  | EmptyString => EmptyString
  | String c s' => String (if Ascii.eqb c old then new else c) (replace old new s')
  end.

(** ** The file system *)

(** [os.path.exists] *)
Definition path_exists (p : path) : M bool :=
  gets (fun w => bool_decide (p ∈ dirs w) || bool_decide (is_Some (files w !! p))).

(** [os.makedirs]; only the leaf directory is tracked. *)
Definition makedirs (p : path) : M unit :=
  modify (fun w => emit (EvMakedirs p) (set_dirs ({[p]} ∪ dirs w) w)).

(** Opening [d + os.sep + f] for writing and storing [content] in it: the
    directory has to be there and the target must not be a directory. *)
Definition write_file (d : path) (f : string) (content : file) : M unit :=
  fun w =>
    let p := d ++ sep ++ f in
    if bool_decide (d ∈ dirs w) && negb (bool_decide (p ∈ dirs w))
    then (set_files (<[p := content]> (files w)) w, Return tt)
    else (w, Raise (IOError p)).

(** [with open(d + os.sep + f, 'w') as h: json.dump(content, h)] *)
Definition json_dump (d : path) (f : string) (content : gmap string pyval) : M unit :=
  write_file d f (FJson content) ;;
  modify (emit (EvWrite (d ++ sep ++ f) (FJson content))).

(** [Poscar.from_file]; a file that is present is taken to parse. *)
Definition Poscar_from_file (p : path) : M Poscar :=
  fun w => match files w !! p with
           | Some f => (w, Return f)
           | None => (w, Raise (IOError p))
           end.

(** [shutil.copy(src, d + os.sep + f)] *)
Definition copy (src : path) (d : path) (f : string) : M unit :=
  fun w => match files w !! src with
           | Some c => (write_file d f c ;; modify (emit (EvCopy src (d ++ sep ++ f)))) w
           | None => (w, Raise (IOError src))
           end.

(** ** The derivation steps *)

Section Pipeline.

(** The job descriptor that the collaborator's [add_job] builds for a
    directory; the pipeline never looks at it. *)
Variable new_job : path -> Job.

(** Modelled from the spec: [Calibrate.add_job] lives in
    [mpinterfaces.calibrate], which is not part of the sources at hand.  The
    spec has it register a new job rooted at [job_dir] with the handle's
    current jobs and create the directory. *)
Definition add_job (cal : ref) (job_dir : path) : M unit :=
  update cal (fun c => with_job_dir_list (job_dir_list c ++ [job_dir])
                         (with_jobs (jobs c ++ [new_job job_dir]) c)) ;;
  modify (fun w => set_dirs ({[job_dir]} ∪ dirs w) w) ;;
  modify (emit (EvAddJob cal job_dir)).

(** *** [class Measurement] *)

(** The step object.  The other attributes that [__init__] sets ([encut],
    [kpoints], [jobs], [handlers], ...) are [None] or empty and never read. *)
Record Measurement := {
  cal_objs : list ref;
  job_dir : path }.

(** The loop of [Measurement.__init__] over [cal_objs].  Its fourth line
    reads [cal.job_dir_list], and no [cal] is bound in [__init__]: the name
    is looked up among the module's globals. *)
Definition Measurement_init_loop (objs : list ref) : M unit :=
  for_each objs (fun obj =>
    update obj (fun c => with_old_jobs (jobs c) c) ;;
    update obj (with_jobs []) ;;
    g <- gets mod_cal ;;
    cal <- match g with
           | Some cal => ret cal
           | None => raise (NameError "cal")
           end ;;
    l <- gets (fun w => job_dir_list (store w cal)) ;;
    update obj (with_old_job_dir_list l) ;;
    update obj (with_job_dir_list [])).

Definition Measurement_init (objs : list ref) (jd : path) : M Measurement :=
  Measurement_init_loop objs ;;
  ret {| cal_objs := objs; job_dir := jd |}.

(** The directory of the job derived from the prior job called [n]. *)
Definition derived_dir (base : path) (n : string) (suffix : string) : path :=
  base ++ sep ++ replace "."%char "_"%char (replace os_sep "_"%char n) ++ sep ++ suffix.

(** [jdir + os.sep + 'CONTCAR'] and [d + os.sep + 'WAVECAR'] *)
Definition contcar (jdir : path) : path := jdir ++ sep ++ "CONTCAR".
Definition wavecar (d : path) : path := d ++ sep ++ "WAVECAR".

(** The body of the inner loop of [Measurement.setup]. *)
Definition Measurement_setup_job (self : Measurement) (cal : ref) (i : nat) (jdir : path) : M unit :=
  olds <- bind (gets (fun w => old_jobs (store w cal))) (fun o => attr o "old_jobs") ;;
  job <- index olds i ;;
  let job_dir := derived_dir (job_dir self) (name job) "STATIC" in
  log INFO "setting up job in {}" [PStr job_dir] ;;
  let contcar_file := contcar jdir in
  log INFO "setting poscar file from {}" [PStr contcar_file] ;;
  p <- Poscar_from_file contcar_file ;;
  update cal (with_poscar p) ;;
  add_job cal job_dir.

Definition Measurement_setup_cal (self : Measurement) (cal : ref) : M unit :=
  update cal (with_incar "NSW" (PInt 0)) ;;
  ds <- bind (gets (fun w => old_job_dir_list (store w cal))) (fun o => attr o "old_job_dir_list") ;;
  for_each (enumerate ds) (fun x => Measurement_setup_job self cal x.1 x.2).

Definition Measurement_setup (self : Measurement) : M unit :=
  for_each (cal_objs self) (Measurement_setup_cal self).

(** The body of the inner loop of [Measurement.get_energy]: an entry that is
    not falsy adds its energy and is logged. *)
Definition get_energy_entry (job_dir : path) (e : option Entry) (energies : list Q) : M (list Q) :=
  match e with
  | Some e =>
      energies <- ret ((energies : list Q) ++ [energy e])%list ;;
      log DEBUG "energy from directory {0} : {1}" [PStr job_dir; PFloat (energy e)] ;;
      ret energies
  | None => ret energies
  end.

(** [Measurement.get_energy] *)
Definition get_energy (cal : ref) : M (list Q) :=
  ds <- gets (fun w => job_dir_list (store w cal)) ;;
  for_fold ds [] (fun job_dir energies =>
    g <- gets mod_assimilate ;;
    assimilate <- match g with
                  | Some f => ret f
                  | None => raise (NameError "MPINTVaspDrone")
                  end ;;
    let allentries := assimilate job_dir in
    for_fold allentries energies (get_energy_entry job_dir)).

(** *** [class MeasurementSolvation] *)

(** [sol_params] is a dict; it is kept as its items in iteration order. *)
Record MeasurementSolvation := {
  sol_base : Measurement;
  sol_params : list (string * pyval) }.

Definition default_sol_params : list (string * pyval) :=
  [("EB_K", PInt 80); ("TAU", PInt 0)].

Definition MeasurementSolvation_init (objs : list ref) (jd : path)
    (params : list (string * pyval)) : M MeasurementSolvation :=
  base <- Measurement_init objs jd ;;
  ret {| sol_base := base; sol_params := params |}.

(** [k, v = key]: unpacking a string into two names takes a string of
    exactly two characters. *)
Definition unpack_pair (key : string) : M (string * string) :=
  match key with
  | EmptyString => raise (ValueError "need more than 0 values to unpack")
  | String _ EmptyString => raise (ValueError "need more than 1 value to unpack")
  | String a (String b EmptyString) => ret (String a "", String b "")
  | String _ (String _ (String _ _)) => raise (ValueError "too many values to unpack")
  end.

(** The body of the loop of [MeasurementSolvation.setup].  The loop header
    [for k, v in self.sol_params] iterates over the dict itself, that is, over
    its keys. *)
Definition MeasurementSolvation_setup_cal (self : MeasurementSolvation) (cal : ref) : M unit :=
  update cal (with_incar "LSOL" (PStr ".TRUE.")) ;;
  olds <- bind (gets (fun w => old_jobs (store w cal))) (fun o => attr o "old_jobs") ;;
  job <- index olds 0 ;;
  let job_dir := derived_dir (job_dir (sol_base self)) (name job) "SOL" in
  for_each (sol_params self).*1 (fun key =>
    kv <- unpack_pair key ;;
    update cal (with_incar kv.1 (PStr kv.2))) ;;
  ex <- path_exists job_dir ;;
  (if negb ex then makedirs job_dir else ret tt) ;;
  json_dump job_dir "system.json" (list_to_map (sol_params self)) ;;
  ds <- bind (gets (fun w => old_job_dir_list (store w cal))) (fun o => attr o "old_job_dir_list") ;;
  d0 <- index ds 0 ;;
  let wavecar_file := wavecar d0 in
  copy wavecar_file job_dir "WAVECAR" ;;
  add_job cal job_dir.

Definition MeasurementSolvation_setup (self : MeasurementSolvation) : M unit :=
  for_each (cal_objs (sol_base self)) (MeasurementSolvation_setup_cal self).

(** *** [class MeasurementInterface] *)

Record MeasurementInterface := {
  int_base : Measurement;
  cal_slabs : list ref;
  cal_interfaces : list ref;
  cal_ligands : list ref }.

Definition has_kind (k : CalKind) (c : Calibrate) : bool :=
  match k, kind c with
  | CalibrateSlab, CalibrateSlab
  | CalibrateInterface, CalibrateInterface
  | CalibrateMolecule, CalibrateMolecule
  | CalibrateOther, CalibrateOther => true
  | _, _ => false
  end.

Definition MeasurementInterface_init (objs : list ref) (jd : path) : M MeasurementInterface :=
  base <- Measurement_init objs jd ;;
  st <- gets store ;;
  ret {| int_base := base;
         cal_slabs := filter (fun r => has_kind CalibrateSlab (st r)) objs;
         cal_interfaces := filter (fun r => has_kind CalibrateInterface (st r)) objs;
         cal_ligands := filter (fun r => has_kind CalibrateMolecule (st r)) objs |}.

(** [list(cal.system.miller_index)] and [cal.system.ligand.composition.formula] *)
Definition read_miller_index (cal : ref) : M (list Z) :=
  sys <- bind (gets (fun w => system (store w cal))) (fun o => attr o "miller_index") ;;
  attr (miller_index sys) "miller_index".

Definition read_formula (cal : ref) : M string :=
  sys <- bind (gets (fun w => system (store w cal))) (fun o => attr o "ligand") ;;
  attr (ligand_formula sys) "ligand".

Definition read_n_ligands (cal : ref) : M pyval :=
  sys <- bind (gets (fun w => system (store w cal))) (fun o => attr o "n_ligands") ;;
  attr (n_ligands sys) "n_ligands".

Definition no_system : string := "the calibrate object doesnt have a system set for calibrating".

(** The body of the inner loop of [MeasurementInterface.setup]; [d] is the
    dict created once, before the outer loop. *)
Definition MeasurementInterface_setup_job (self : MeasurementInterface) (cal : ref)
    (i : nat) (jdir : path) (d : gmap string pyval) : M (gmap string pyval) :=
  olds <- bind (gets (fun w => old_jobs (store w cal))) (fun o => attr o "old_jobs") ;;
  job <- index olds i ;;
  let job_dir := derived_dir (job_dir (int_base self)) (name job) "STATIC" in
  let contcar_file := contcar jdir in
  p <- Poscar_from_file contcar_file ;;
  update cal (with_poscar p) ;;
  d <- (if bool_decide (cal ∈ cal_slabs self) || bool_decide (cal ∈ cal_interfaces self)
        then fun w => match read_miller_index cal w with
                      | (w', Return hkl) => (w', Return (<["hkl" := PList (PInt <$> hkl)]> d))
                      | (w', Raise _) => (log CRITICAL no_system [] ;; ret d) w'
                      end
        else ret d) ;;
  d <- (if bool_decide (cal ∈ cal_interfaces self)
        then fun w => match read_formula cal w with
                      | (w', Return f) => (w', Return (<["ligand" := PStr f]> d))
                      | (w', Raise _) => (log CRITICAL no_system [] ;; ret d) w'
                      end
        else ret d) ;;
  ex <- path_exists job_dir ;;
  (if negb ex then makedirs job_dir else ret tt) ;;
  (if bool_decide (d ≠ ∅) then json_dump job_dir "system.json" d else ret tt) ;;
  add_job cal job_dir ;;
  ret d.

Definition MeasurementInterface_setup_cal (self : MeasurementInterface) (cal : ref)
    (d : gmap string pyval) : M (gmap string pyval) :=
  update cal (with_incar "NSW" (PInt 0)) ;;
  ds <- bind (gets (fun w => old_job_dir_list (store w cal))) (fun o => attr o "old_job_dir_list") ;;
  for_fold (enumerate ds) d (fun x => MeasurementInterface_setup_job self cal x.1 x.2).

Definition MeasurementInterface_setup (self : MeasurementInterface) : M unit :=
  for_fold (cal_objs (int_base self)) ∅ (MeasurementInterface_setup_cal self) ;;
  ret tt.

(** [str(l)] of a list of ints, as in [str([1, 0, 0])]. *)
Fixpoint join (s : string) (l : list string) : string :=
  match l with
  | [] => ""
  | [x] => x
  | x :: l' => x ++ s ++ join s l'
  end.

Definition str_list (l : list Z) : string := "[" ++ join ", " (pretty <$> l) ++ "]".

(** The binary operators [-] and [*] on the values at hand.  A list has no
    subtraction; an int times a list repeats the list. *)
Definition type_name (v : pyval) : string :=
  match v with
  | PInt _ => "int"
  | PFloat _ => "float"
  | PStr _ => "unicode"
  | PList _ => "list"
  end.

Definition py_sub (a b : pyval) : M pyval :=
  match a, b with
  | PInt x, PInt y => ret (PInt (x - y))
  | PInt x, PFloat y => ret (PFloat (Qminus (inject_Z x) y))
  | PFloat x, PInt y => ret (PFloat (Qminus x (inject_Z y)))
  | PFloat x, PFloat y => ret (PFloat (Qminus x y))
  | _, _ => raise (TypeError ("unsupported operand type(s) for -: '" ++ type_name a
                               ++ "' and '" ++ type_name b ++ "'"))
  end.

Definition repeat_list (n : Z) (l : list pyval) : list pyval :=
  mjoin (replicate (Z.to_nat n) l).

Definition py_mul (a b : pyval) : M pyval :=
  match a, b with
  | PInt x, PInt y => ret (PInt (x * y))
  | PInt x, PFloat y => ret (PFloat (Qmult (inject_Z x) y))
  | PFloat x, PInt y => ret (PFloat (Qmult x (inject_Z y)))
  | PFloat x, PFloat y => ret (PFloat (Qmult x y))
  | PInt n, PList l | PList l, PInt n => ret (PList (repeat_list n l))
  | _, _ => raise (TypeError ("unsupported operand type(s) for *: '" ++ type_name a
                               ++ "' and '" ++ type_name b ++ "'"))
  end.

(** The list object that [get_energy] returns, as a value. *)
Definition energies_val (es : list Q) : pyval := PList (PFloat <$> es).

(** [E_binding[key] = v]: [E_binding] is assigned nowhere, so the name is
    looked up among the module's globals. *)
Definition E_binding_setitem (key : string) (v : pyval) : M unit :=
  g <- gets mod_E_binding ;;
  match g with
  | Some d => modify (set_E_binding (<[key := v]> d))
  | None => raise (NameError "E_binding")
  end.

(** The bodies of the three loops of [MeasurementInterface.make_measurements]. *)
Definition measure_slab (cal : ref) (E_slabs : gmap string pyval) : M (gmap string pyval) :=
  hkl <- read_miller_index cal ;;
  let key := str_list hkl in
  es <- get_energy cal ;;
  ret (<[key := energies_val es]> E_slabs).

Definition measure_ligand (cal : ref) (E_ligands : gmap string pyval) : M (gmap string pyval) :=
  key <- read_formula cal ;;
  es <- get_energy cal ;;
  ret (<[key := energies_val es]> E_ligands).

Definition measure_interface (E_slabs E_ligands : gmap string pyval) (cal : ref)
    (E_interfaces : gmap string pyval) : M (gmap string pyval) :=
  hkl <- read_miller_index cal ;;
  let key_slab := str_list hkl in
  key_ligand <- read_formula cal ;;
  let key := key_slab ++ key_ligand in
  es <- get_energy cal ;;
  let E_interfaces := <[key := energies_val es]> E_interfaces in
  e_int <- getitem E_interfaces key ;;
  e_slab <- getitem E_slabs key_slab ;;
  diff <- py_sub e_int e_slab ;;
  n <- read_n_ligands cal ;;
  e_lig <- getitem E_ligands key_ligand ;;
  prod <- py_mul n e_lig ;;
  v <- py_sub diff prod ;;
  E_binding_setitem key v ;;
  ret E_interfaces.

Definition MeasurementInterface_make_measurements (self : MeasurementInterface) : M unit :=
  E_slabs <- for_fold (cal_slabs self) ∅ measure_slab ;;
  E_ligands <- for_fold (cal_ligands self) ∅ measure_ligand ;;
  _ <- for_fold (cal_interfaces self) ∅ (measure_interface E_slabs E_ligands) ;;
  g <- gets mod_E_binding ;;
  match g with
  | Some d => log INFO "Binding energy = {}" [PList ((fun kv => PList [PStr kv.1; kv.2]) <$> map_to_list d)]
  | None => raise (NameError "E_binding")
  end.

End Pipeline.

(** * Specification vocabulary *)

(** From here on [++] appends lists; strings are appended with [+:+]. *)
Open Scope list_scope.

Arguments derived_dir : simpl never.
Arguments contcar : simpl never.
Arguments wavecar : simpl never.
Arguments str_list : simpl never.

(** ** Reading the trace *)

(** The directories of the [add_job] calls made on the object [r]. *)
Definition add_job_of (r : ref) (e : event) : option path :=
  match e with
  | EvAddJob c d => if decide (c = r) then Some d else None
  | _ => None
  end.

Definition add_jobs_for (r : ref) (evs : list event) : list path := omap (add_job_of r) evs.

(** What a piece of a derivation step may do to the world: it appends [evs]
    to the trace, leaves the archived fields of every object alone, and the
    current directory list of an object grows by exactly the [add_job] calls
    made on it. *)
Record grows (w w' : World) (evs : list event) : Prop := {
  grows_trace : trace w' = trace w ++ evs;
  grows_old_jobs : ∀ r, old_jobs (store w' r) = old_jobs (store w r);
  grows_old_dirs : ∀ r, old_job_dir_list (store w' r) = old_job_dir_list (store w r);
  grows_job_dirs : ∀ r, job_dir_list (store w' r) = job_dir_list (store w r) ++ add_jobs_for r evs;
  grows_jobs : ∀ r, length (jobs (store w' r)) = length (jobs (store w r)) + length (add_jobs_for r evs);
  grows_system : ∀ r, system (store w' r) = system (store w r);
  grows_dirs : dirs w ⊆ dirs w' }.

(** A computation is quiet when, whatever its outcome, it satisfies [grows]
    and made no [add_job] call. *)
Definition quiet {A} (m : M A) : Prop :=
  ∀ w w' o, m w = (w', o) → ∃ evs, grows w w' evs ∧ ∀ r, add_jobs_for r evs = [].

(** Attribute updates that leave the job bookkeeping alone. *)
Definition keeps (f : Calibrate → Calibrate) : Prop :=
  ∀ c, old_jobs (f c) = old_jobs c ∧ old_job_dir_list (f c) = old_job_dir_list c
       ∧ job_dir_list (f c) = job_dir_list c ∧ jobs (f c) = jobs c
       ∧ system (f c) = system c.

(** The archived lists of an object, empty when the attribute is missing. *)
Definition prior_jobs (w : World) (cal : ref) : list Job := default [] (old_jobs (store w cal)).

Definition prior_dirs (w : World) (cal : ref) : list path := default [] (old_job_dir_list (store w cal)).

(** The directory the generic step derives from the prior job [j]. *)
Definition static_dir (self : Measurement) (j : Job) : path :=
  derived_dir (job_dir self) (name j) "STATIC".

(** Why deriving from predecessor [i], run in [jdir], cannot go through. *)
Definition failure_at (w : World) (cal : ref) (i : nat) (jdir : path) (e : exn) : Prop :=
  (old_jobs (store w cal) = None ∧ e = AttributeError "old_jobs")
  ∨ (∃ olds, old_jobs (store w cal) = Some olds ∧ olds !! i = None ∧ e = IndexError)
  ∨ (∃ olds j, old_jobs (store w cal) = Some olds ∧ olds !! i = Some j
       ∧ files w !! contcar jdir = None ∧ e = IOError (contcar jdir)).

(** The directories that the step is to register for the object [r]. *)
Definition expected_static (self : Measurement) (w : World) (r : ref) : list path :=
  static_dir self <$> take (length (prior_dirs w r)) (prior_jobs w r).

(** What the derivation for the object [c] needs: the archived directory
    list, a prior job for each prior directory, and a [CONTCAR] in each. *)
Definition ready (w : World) (c : ref) : Prop :=
  is_Some (old_job_dir_list (store w c))
  ∧ (length (prior_dirs w c) ≤ length (prior_jobs w c))%nat
  ∧ ∀ d, d ∈ prior_dirs w c → is_Some (files w !! contcar d).

(** The derivation for [c] stops with [e] at predecessor [m], the first
    one that cannot be derived from. *)
Definition stopped (w : World) (c : ref) (m : nat) (e : exn) : Prop :=
  (old_job_dir_list (store w c) = None ∧ m = 0 ∧ e = AttributeError "old_job_dir_list")
  ∨ (∃ d, prior_dirs w c !! m = Some d
          ∧ (m ≤ length (prior_jobs w c))%nat
          ∧ (∀ i d', i < m → prior_dirs w c !! i = Some d' → is_Some (files w !! contcar d'))
          ∧ failure_at w c m d e).

(** The [add_job] calls on the object [r] of a step that goes through
    [objs]: those of [expected_static], once per occurrence of [r]. *)
Definition calls_on (self : Measurement) (w : World) (r : ref) (objs : list ref) : list path :=
  objs ≫= (λ c, if decide (c = r) then expected_static self w r else []).

(** The directory the solvation step derives from the prior job [j]. *)
Definition sol_dir (self : MeasurementSolvation) (j : Job) : path :=
  derived_dir (job_dir (sol_base self)) (name j) "SOL".

(** The [add_job] calls of the solvation step on the object [r]: one per
    occurrence of [r], for the first prior job. *)
Definition sol_calls_on (self : MeasurementSolvation) (w : World) (r : ref) (objs : list ref) : list path :=
  objs ≫= (λ c, if decide (c = r) then sol_dir self <$> take 1 (prior_jobs w r) else []).

(** In the words of the spec: [s'] is [s] with every path separator and
    every literal dot replaced by an underscore. *)
Definition sanitized (s s' : string) : Prop :=
  String.length s' = String.length s
  ∧ ∀ i, String.get i s'
         = (λ c, if decide (c = os_sep ∨ c = "."%char) then "_"%char else c) <$> String.get i s.

(** The world after a run of log calls. *)
Definition emits (evs : list event) (w : World) : World :=
  {| store := store w; files := files w; dirs := dirs w; trace := trace w ++ evs;
     mod_cal := mod_cal w; mod_assimilate := mod_assimilate w;
     mod_E_binding := mod_E_binding w |}.

(** The records of one directory that count: [if e:] drops [None]. *)
Definition records (entries : list (option Entry)) : list Entry := omap id entries.

(** The log line of [get_energy] for one record. *)
Definition energy_log (d : path) (e : Entry) : event :=
  EvLog DEBUG "energy from directory {0} : {1}" [PStr d; PFloat (energy e)].

(** A computation that leaves the dict behind [E_binding] alone. *)
Definition keepsE {A} (m : M A) : Prop :=
  ∀ w w' o, m w = (w', o) → mod_E_binding w' = mod_E_binding w.

(** A computation that raises whatever the world, without touching the dict
    behind [E_binding]. *)
Definition fails {A} (m : M A) : Prop :=
  ∀ w, ∃ w' e, m w = (w', Raise e) ∧ mod_E_binding w' = mod_E_binding w.

(** ** Concrete handles and worlds *)

(** The collaborator names a new job after its directory. *)
Definition ex_new_job (d : path) : Job := {| name := d |}.

(** A calibrate object as the driver hands it over: jobs run, nothing
    archived yet. *)
Definition fresh_cal (k : CalKind) (js : list Job) (ds : list path) (sy : option System) : Calibrate :=
  {| kind := k; incar := ∅; poscar := None; jobs := js; job_dir_list := ds;
     old_jobs := None; old_job_dir_list := None; system := sy |}.

(** A calibrate object whose jobs and directories have been archived. *)
Definition archived_cal (k : CalKind) (js : list Job) (ds : list path) (sy : option System) : Calibrate :=
  {| kind := k; incar := ∅; poscar := None; jobs := []; job_dir_list := [];
     old_jobs := Some js; old_job_dir_list := Some ds; system := sy |}.

(** The module as imported: none of [cal], [MPINTVaspDrone], [E_binding] is
    bound. *)
Definition imported (st : ref -> Calibrate) (fs : gmap path file) (ds : gset path) : World :=
  {| store := st; files := fs; dirs := ds; trace := [];
     mod_cal := None; mod_assimilate := None; mod_E_binding := None |}.

(** The module run as a script, after its test block has bound [cal]. *)
Definition scripted (cal : ref) (st : ref -> Calibrate) (fs : gmap path file) (ds : gset path) : World :=
  {| store := st; files := fs; dirs := ds; trace := [];
     mod_cal := Some cal; mod_assimilate := None; mod_E_binding := None |}.

(** One handle with two finished jobs, run in [/r/a] and [/r/c]. *)
Definition two_jobs : list Job := [ {| name := "a/b.1" |}; {| name := "c" |} ].
Definition two_dirs : list path := ["/r/a"; "/r/c"].
Definition two_jobs_cal : Calibrate := fresh_cal CalibrateOther two_jobs two_dirs None.

(** Both predecessors left a [CONTCAR]. *)
Definition ex1_world : World :=
  scripted 0 (fun _ => two_jobs_cal)
    {[ "/r/a/CONTCAR" := FData "Pt 1.0"; "/r/c/CONTCAR" := FData "Pt 1.1" ]}
    {[ "/r/a"; "/r/c" ]}.
Definition ex1_self : Measurement := {| cal_objs := [0]; job_dir := "./Measurement" |}.
Definition ex1_before : World := (Measurement_init [0] "./Measurement" ex1_world).1.
Definition ex1_after : World := (Measurement_setup ex_new_job ex1_self ex1_before).1.


(** A solvation step with an empty parameter set over the handle with two
    prior jobs; the first predecessor left a [WAVECAR]. *)
Definition ex4_world : World :=
  scripted 0 (fun _ => two_jobs_cal)
    {[ "/r/a/WAVECAR" := FData "wave" ]} {[ "/r/a"; "/r/c" ]}.
Definition ex4_self : MeasurementSolvation :=
  {| sol_base := {| cal_objs := [0]; job_dir := "./MeasurementSolvation" |}; sol_params := [] |}.
Definition ex4_before : World :=
  (MeasurementSolvation_init [0] "./MeasurementSolvation" [] ex4_world).1.

(** The same step with the default parameter set. *)
Definition ex7_self : MeasurementSolvation :=
  {| sol_base := {| cal_objs := [0]; job_dir := "./MeasurementSolvation" |};
     sol_params := default_sol_params |}.
Definition ex7_before : World :=
  (MeasurementSolvation_init [0] "./MeasurementSolvation" default_sol_params ex4_world).1.

(** A slab, a ligand and an interface of the two, with the energies of the
    example of the spec: object 0 is the slab, 1 the ligand, 2 the interface. *)
Definition slab_system : System :=
  {| miller_index := Some [1; 0; 0]%Z; ligand_formula := None; n_ligands := None |}.
Definition ligand_system : System :=
  {| miller_index := None; ligand_formula := Some "Ligand2"; n_ligands := None |}.
Definition interface_system : System :=
  {| miller_index := Some [1; 0; 0]%Z; ligand_formula := Some "Ligand2";
     n_ligands := Some (PInt 2) |}.

Definition measured_cal (k : CalKind) (d : path) (sy : System) : Calibrate :=
  {| kind := k; incar := ∅; poscar := None; jobs := [ {| name := d |} ]; job_dir_list := [d];
     old_jobs := Some []; old_job_dir_list := Some []; system := Some sy |}.

Definition ex2_store (r : ref) : Calibrate :=
  match r with
  | 0 => measured_cal CalibrateSlab "/m/slab" slab_system
  | 1 => measured_cal CalibrateMolecule "/m/lig" ligand_system
  | _ => measured_cal CalibrateInterface "/m/int" interface_system
  end.

Definition ex2_assimilate (d : path) : list (option Entry) :=
  if String.eqb d "/m/slab" then [Some {| energy := (-7) # 1 |}]
  else if String.eqb d "/m/lig" then [Some {| energy := (-1) # 1 |}]
  else if String.eqb d "/m/int" then [Some {| energy := (-10) # 1 |}]
  else [].

Definition ex2_self : MeasurementInterface :=
  {| int_base := {| cal_objs := [0; 1; 2]; job_dir := "./MeasurementInterface" |};
     cal_slabs := [0]; cal_interfaces := [2]; cal_ligands := [1] |}.

(** All three names bound, [E_binding] to an empty dict. *)
Definition ex2_world : World :=
  {| store := ex2_store; files := ∅; dirs := {[ "/m/slab"; "/m/lig"; "/m/int" ]}; trace := [];
     mod_cal := Some 0; mod_assimilate := Some ex2_assimilate; mod_E_binding := Some ∅ |}.

(** The same handles in the module as imported. *)
Definition ex2_imported : World := imported ex2_store ∅ {[ "/m/slab"; "/m/lig"; "/m/int" ]}.

(** The interface alone was measured: no slab energy, no ligand energy. *)
Definition ex5_self : MeasurementInterface :=
  {| int_base := {| cal_objs := [2]; job_dir := "./MeasurementInterface" |};
     cal_slabs := []; cal_interfaces := [2]; cal_ligands := [] |}.

(** A handle with two current directories: the first holds two finished
    runs, the second none. *)
Definition ex8_assimilate (d : path) : list (option Entry) :=
  if String.eqb d "/m/a" then [Some {| energy := (-3) # 1 |}; Some {| energy := (-4) # 1 |}]
  else [].
Definition ex8_cal : Calibrate :=
  {| kind := CalibrateOther; incar := ∅; poscar := None;
     jobs := [ {| name := "a" |}; {| name := "b" |} ]; job_dir_list := ["/m/a"; "/m/b"];
     old_jobs := Some []; old_job_dir_list := Some []; system := None |}.
Definition ex8_world : World :=
  {| store := fun _ => ex8_cal; files := ∅; dirs := {[ "/m/a"; "/m/b" ]}; trace := [];
     mod_cal := None; mod_assimilate := Some ex8_assimilate; mod_E_binding := None |}.

(** An interface handle followed by a ligand handle, each with one archived
    job whose directory holds a [CONTCAR]: object 2 is the interface, 1 the
    ligand. *)
Definition hydrazine_system : System :=
  {| miller_index := Some [1; 0; 0]%Z; ligand_formula := Some "H4N2";
     n_ligands := Some (PInt 1) |}.
Definition ex10_store (r : ref) : Calibrate :=
  match r with
  | 1 => archived_cal CalibrateMolecule [ {| name := "lig" |} ] ["/r/lig"] None
  | _ => archived_cal CalibrateInterface [ {| name := "int" |} ] ["/r/int"] (Some hydrazine_system)
  end.
Definition ex10_world : World :=
  imported ex10_store
    {[ "/r/int/CONTCAR" := FData "Pt N H"; "/r/lig/CONTCAR" := FData "N H" ]}
    {[ "/r/int"; "/r/lig" ]}.
Definition ex10_self : MeasurementInterface :=
  {| int_base := {| cal_objs := [2; 1]; job_dir := "./MeasurementInterface" |};
     cal_slabs := []; cal_interfaces := [2]; cal_ligands := [1] |}.
Definition ex10_after : World := (MeasurementInterface_setup ex_new_job ex10_self ex10_world).1.

(** * Further definitions *)

(** ** The generic and the solvation [make_measurements] *)

(** [Measurement.make_measurements]: the energy lists of the handles are
    appended to a local list, which is dropped when the method ends. *)
Definition Measurement_make_measurements (self : Measurement) : M unit :=
  _ <- for_fold (cal_objs self) [] (λ cal (energies : list (list Q)),
         es <- get_energy cal ;; ret (energies ++ [es])) ;;
  ret tt.

(** [MeasurementSolvation.make_measurements]: its body is [pass]. *)
Definition MeasurementSolvation_make_measurements (self : MeasurementSolvation) : M unit :=
  ret tt.

(** ** Invariants of runs *)

(** Every run of [m] relates the world before to the world after by [R], and
    every value it returns satisfies [Q]. *)
Definition obeys {A} (R : World → World → Prop) (Q : A → Prop) (m : M A) : Prop :=
  ∀ w w' o, m w = (w', o) → R w w' ∧ ∀ a, o = Return a → Q a.

Definition any {A} (a : A) : Prop := True.

Definition log_or_add_job (e : event) : Prop :=
  match e with
  | EvLog _ _ _ | EvAddJob _ _ => True
  | _ => False
  end.

(** The directories of all [add_job] calls of a trace. *)
Definition registered (evs : list event) : list path :=
  omap (λ e, match e with EvAddJob _ d => Some d | _ => None end) evs.

(** A run that writes no file and creates directories through [add_job]
    only. *)
Definition registers_only (w w' : World) : Prop :=
  files w' = files w
  ∧ ∃ evs, trace w' = trace w ++ evs
           ∧ Forall log_or_add_job evs
           ∧ dirs w' = dirs w ∪ list_to_set (registered evs).

(** The log lines and the energies of one handle under the parser [f]. *)
Definition energy_logs (f : path → list (option Entry)) (w : World) (c : ref) : list event :=
  job_dir_list (store w c) ≫= (λ d, energy_log d <$> records (f d)).

Definition energies_of (f : path → list (option Entry)) (w : World) (c : ref) : list Q :=
  job_dir_list (store w c) ≫= (λ d, energy <$> records (f d)).

(** A run that changes the class of no object. *)
Definition keeps_kinds (w w' : World) : Prop := ∀ r, kind (store w' r) = kind (store w r).

(** ** The solvation step, statement by statement *)

(** The statements of the loop body of [MeasurementSolvation.setup] from
    [os.path.exists] on, for the job directory [job_dir]. *)
Definition solvation_tail (new_job : path → Job) (cal : ref) (job_dir : path)
    (params : list (string * pyval)) : M unit :=
  ex <- path_exists job_dir ;;
  (if negb ex then makedirs job_dir else ret tt) ;;
  json_dump job_dir "system.json" (list_to_map params) ;;
  ds <- bind (gets (λ w, old_job_dir_list (store w cal))) (λ o, attr o "old_job_dir_list") ;;
  d0 <- index ds 0 ;;
  let wavecar_file := wavecar d0 in
  copy wavecar_file job_dir "WAVECAR" ;;
  add_job new_job cal job_dir.

(** A run that changes entries of [incar] only. *)
Definition incar_only (w w' : World) : Prop :=
  files w' = files w ∧ dirs w' = dirs w ∧ trace w' = trace w
  ∧ ∀ r, old_jobs (store w' r) = old_jobs (store w r)
         ∧ old_job_dir_list (store w' r) = old_job_dir_list (store w r)
         ∧ jobs (store w' r) = jobs (store w r)
         ∧ job_dir_list (store w' r) = job_dir_list (store w r).

(** The last character of a string. *)
Fixpoint last_char (s : string) : option ascii :=
  match s with
  | EmptyString => None
  | String c EmptyString => Some c
  | String _ s' => last_char s'
  end.

(** The manifest and the wavefunction file of a job directory. *)
Definition manifest (job_dir : path) : path := job_dir +:+ sep +:+ "system.json".

(** ** The interface step *)

Definition not_write (e : event) : Prop :=
  match e with
  | EvWrite _ _ | EvCopy _ _ => False
  | _ => True
  end.

(** A run that writes and copies no file. *)
Definition writes_nothing (w w' : World) : Prop :=
  files w' = files w ∧ ∃ evs, trace w' = trace w ++ evs ∧ Forall not_write evs.

(** A dict with no entries but [hkl], a list of ints, and [ligand], a
    string. *)
Definition identity_dict (d : gmap string pyval) : Prop :=
  ∀ k v, d !! k = Some v →
    (k = "hkl" ∧ ∃ l : list Z, v = PList (PInt <$> l)) ∨ (k = "ligand" ∧ ∃ s, v = PStr s).

(** A file that is the manifest of some job directory and holds a non-empty
    dict of identity keys. *)
Definition identity_manifest (p : path) (f : file) : Prop :=
  ∃ jd d, p = manifest jd ∧ f = FJson d ∧ d ≠ ∅ ∧ identity_dict d.

Definition manifest_event (e : event) : Prop :=
  match e with
  | EvWrite p f => identity_manifest p f
  | EvCopy _ _ => False
  | _ => True
  end.

(** A run that writes nothing but manifests of identity keys. *)
Definition writes_manifests (w w' : World) : Prop :=
  (∀ p f, files w' !! p = Some f → files w !! p = Some f ∨ identity_manifest p f)
  ∧ ∃ evs, trace w' = trace w ++ evs ∧ Forall manifest_event evs.

(** [hkl] and [ligand] as the interface step records them. *)
Definition identity_of (hkl : list Z) (fm : string) : gmap string pyval :=
  <["ligand" := PStr fm]> (<["hkl" := PList (PInt <$> hkl)]> ∅).




(** ** Directory names *)

(** What the two [replace] calls make of a character. *)
Definition flat (c : ascii) : ascii :=
  if decide (c = os_sep ∨ c = "."%char) then "_"%char else c.

(** A string without a path separator. *)
Fixpoint no_sep (s : string) : Prop :=
  match s with
  | EmptyString => True
  | String c s' => c ≠ os_sep ∧ no_sep s'
  end.

(** ** Further handles and worlds *)

(** The handle with two prior jobs, archived, in the module as imported;
    neither predecessor left a file. *)
Definition archived_world (fs : gmap path file) : World :=
  imported (λ _, archived_cal CalibrateSlab two_jobs two_dirs None) fs {[ "/r/a"; "/r/c" ]}.

(** A handle that never ran a job. *)
Definition idle_world : World := imported (λ _, archived_cal CalibrateOther [] [] None) ∅ ∅.

(** A solvation step whose only parameter has a key of two characters. *)
Definition two_char_self : MeasurementSolvation :=
  {| sol_base := {| cal_objs := [0]; job_dir := "./MeasurementSolvation" |};
     sol_params := [("EB", PInt 80)] |}.

(** An interface step over the ligand handle alone, and one over a slab
    handle alone. *)
Definition ligand_only_self : MeasurementInterface :=
  {| int_base := {| cal_objs := [1]; job_dir := "./MeasurementInterface" |};
     cal_slabs := []; cal_interfaces := []; cal_ligands := [1] |}.



Definition one_wavecar : gmap path file := {[ "/r/a/WAVECAR" := FData "wave" ]}.

(** * Properties *)

(** ** Traces and growth *)

Lemma add_jobs_for_app r e1 e2 :
  add_jobs_for r (e1 ++ e2) = add_jobs_for r e1 ++ add_jobs_for r e2.
Proof. apply omap_app. Qed.

Lemma grows_refl w : grows w w [].
Proof.
  split; intros; rewrite ?app_nil_r; simpl; auto with lia.
Qed.

Lemma grows_trans w w1 w2 e1 e2 :
  grows w w1 e1 → grows w1 w2 e2 → grows w w2 (e1 ++ e2).
Proof.
  intros [] []. split; intros.
  - rewrite app_assoc. congruence.
  - congruence.
  - congruence.
  - rewrite add_jobs_for_app, app_assoc. congruence.
  - rewrite add_jobs_for_app, length_app. rewrite grows_jobs1, grows_jobs0. lia.
  - congruence.
  - etrans; eauto.
Qed.

Lemma store_update_eq (st : ref → Calibrate) cal c : (<[cal := c]> st) cal = c.
Proof. apply fn_lookup_insert. Qed.

Lemma store_update r (st : ref → Calibrate) cal c :
  (<[cal := c]> st) r = if decide (r = cal) then c else st r.
Proof.
  destruct (decide (r = cal)) as [->|Hne].
  - apply fn_lookup_insert.
  - by apply fn_lookup_insert_ne.
Qed.

(** ** The generic step, one predecessor at a time *)

Section GenericSetup.

Variable new_job : path → Job.
Variable self : Measurement.

Lemma setup_job_spec cal i jdir w :
  ∃ w' o evs,
    Measurement_setup_job new_job self cal i jdir w = (w', o)
    ∧ grows w w' evs ∧ files w' = files w
    ∧ (∀ r, r ≠ cal → add_jobs_for r evs = [])
    ∧ match o with
      | Return _ => ∃ j, prior_jobs w cal !! i = Some j
                         ∧ is_Some (files w !! contcar jdir)
                         ∧ add_jobs_for cal evs = [static_dir self j]
      | Raise e => failure_at w cal i jdir e ∧ add_jobs_for cal evs = []
      end.
Proof.
  unfold Measurement_setup_job, failure_at, prior_jobs.
  destruct (old_jobs (store w cal)) as [olds|] eqn:Hold.
  2:{ exists w, (Raise (AttributeError "old_jobs")), [].
      unfold bind, gets, attr. rewrite Hold. simpl.
      split_and!; auto using grows_refl. }
  destruct (olds !! i) as [j|] eqn:Hj.
  2:{ exists w, (Raise IndexError), [].
      unfold bind, gets, attr, index. rewrite Hold. simpl. rewrite Hj. simpl.
      split_and!; eauto 10 using grows_refl. }
  set (l1 := EvLog INFO "setting up job in {}" [PStr (static_dir self j)]).
  set (l2 := EvLog INFO "setting poscar file from {}" [PStr (contcar jdir)]).
  destruct (files w !! contcar jdir) as [p|] eqn:Hp.
  - eexists _, (Return tt), [l1; l2; EvAddJob cal (static_dir self j)].
    split.
    { unfold bind, gets, attr, index, log, modify, Poscar_from_file, add_job, update.
      rewrite Hold. simpl. rewrite Hj. simpl.
      fold (static_dir self j). rewrite Hp. reflexivity. }
    simpl. split; [|split; [reflexivity|split]].
    + split; simpl; intros.
      * by rewrite <- !app_assoc.
      * rewrite !store_update. by repeat case_decide; subst.
      * rewrite !store_update. by repeat case_decide; subst.
      * unfold add_jobs_for. simpl. rewrite !store_update.
        repeat case_decide; subst; simpl; try done. by rewrite app_nil_r.
      * unfold add_jobs_for. simpl. rewrite !store_update.
        repeat case_decide; subst; simpl; try done; try lia. rewrite length_app. simpl. lia.
      * rewrite !store_update. by repeat case_decide; subst.
      * apply union_subseteq_r.
    + intros r Hr. unfold add_jobs_for. simpl. by case_decide.
    + exists j. split; [done|]. split; [by eexists|].
      unfold add_jobs_for. simpl. by case_decide.
  - eexists _, (Raise (IOError (contcar jdir))), [l1; l2].
    split.
    { unfold bind, gets, attr, index, log, modify, Poscar_from_file.
      rewrite Hold. simpl. rewrite Hj. simpl.
      fold (static_dir self j). rewrite Hp. reflexivity. }
    simpl. split; [|split; [reflexivity|split]].
    + split; simpl; intros; rewrite ?app_nil_r;
        first [done | lia | by rewrite <- !app_assoc].
    + done.
    + split; [|done]. right. right. eauto 10.
Qed.

Lemma failure_at_grows w w' evs cal i jdir e :
  grows w w' evs → files w' = files w →
  failure_at w' cal i jdir e → failure_at w cal i jdir e.
Proof.
  intros G F. unfold failure_at. rewrite (grows_old_jobs _ _ _ G), F. tauto.
Qed.

Lemma prior_jobs_grows w w' evs cal : grows w w' evs → prior_jobs w' cal = prior_jobs w cal.
Proof. intros G. unfold prior_jobs. by rewrite (grows_old_jobs _ _ _ G). Qed.

(** The inner loop, started at predecessor [k]: it derives a job from the
    predecessors [k], [k+1], ..., one [add_job] each, and stops at the first
    one, [k + m], that cannot be derived from. *)
Lemma setup_jobs_spec cal ds : ∀ k w,
  ∃ w' o evs m,
    for_each (zip (seq k (length ds)) ds)
      (λ x, Measurement_setup_job new_job self cal x.1 x.2) w = (w', o)
    ∧ grows w w' evs ∧ files w' = files w
    ∧ (∀ r, r ≠ cal → add_jobs_for r evs = [])
    ∧ add_jobs_for cal evs = static_dir self <$> take m (drop k (prior_jobs w cal))
    ∧ length (take m (drop k (prior_jobs w cal))) = m
    ∧ (∀ i d, i < m → ds !! i = Some d → is_Some (files w !! contcar d))
    ∧ match o with
      | Return _ => m = length ds
      | Raise e => ∃ d, ds !! m = Some d ∧ failure_at w cal (k + m) d e
      end.
Proof.
  induction ds as [|d ds IH]; intros k w.
  - exists w, (Return tt), [], 0. simpl.
    split_and!; auto using grows_refl. intros; lia.
  - simpl. unfold bind at 1.
    destruct (setup_job_spec cal k d w) as (w1 & o1 & evs1 & Hrun & G1 & F1 & Hoth1 & Ho1).
    simpl in Hrun. rewrite Hrun.
    destruct o1 as [[]|e].
    + destruct Ho1 as (j & Hj & Hfile & Hadd1).
      destruct (IH (S k) w1) as (w2 & o2 & evs2 & m & Hloop & G2 & F2 & Hoth2 & Hadd2 & Hlen & Hfiles & Ho2).
      exists w2, o2, (evs1 ++ evs2), (S m).
      rewrite (prior_jobs_grows _ _ _ _ G1) in Hadd2, Hlen.
      assert (Hdrop : drop k (prior_jobs w cal) = j :: drop (S k) (prior_jobs w cal))
        by (by apply drop_S).
      split_and!.
      * done.
      * eauto using grows_trans.
      * congruence.
      * intros r Hr. rewrite add_jobs_for_app, Hoth1, Hoth2; done.
      * rewrite add_jobs_for_app, Hadd1, Hadd2, Hdrop. done.
      * rewrite Hdrop. simpl. by rewrite Hlen.
      * intros [|i] d' Hi Hd'; simpl in Hd'.
        -- by inversion Hd'; subst.
        -- rewrite <- F1. apply (Hfiles i); [lia|done].
      * destruct o2 as [[]|e].
        -- simpl. by rewrite Ho2.
        -- destruct Ho2 as (d' & Hd' & Hfail). exists d'. split; [done|].
           replace (k + S m) with (S k + m) by lia.
           eauto using failure_at_grows.
    + destruct Ho1 as [Hfail Hadd1].
      exists w1, (Raise e), evs1, 0. simpl.
      split_and!; try done.
      * intros; lia.
      * exists d. split; [done|]. by rewrite Nat.add_0_r.
Qed.

(** ** The generic step, one calibrate object at a time *)

Lemma prior_dirs_grows w w' evs cal : grows w w' evs → prior_dirs w' cal = prior_dirs w cal.
Proof. intros G. unfold prior_dirs. by rewrite (grows_old_dirs _ _ _ G). Qed.

Lemma expected_static_grows w w' evs r :
  grows w w' evs → expected_static self w' r = expected_static self w r.
Proof.
  intros G. unfold expected_static.
  by rewrite (prior_dirs_grows _ _ _ _ G), (prior_jobs_grows _ _ _ _ G).
Qed.

Lemma ready_grows w w' evs c :
  grows w w' evs → files w' = files w → ready w' c → ready w c.
Proof.
  intros G F. unfold ready.
  by rewrite (prior_dirs_grows _ _ _ _ G), (prior_jobs_grows _ _ _ _ G),
    (grows_old_dirs _ _ _ G), F.
Qed.

Lemma stopped_grows w w' evs c m e :
  grows w w' evs → files w' = files w → stopped w' c m e → stopped w c m e.
Proof.
  intros G F. unfold stopped.
  rewrite (prior_dirs_grows _ _ _ _ G), (prior_jobs_grows _ _ _ _ G),
    (grows_old_dirs _ _ _ G), F.
  intros [H|(d & ? & ? & ? & H)]; [by left|right].
  exists d. split_and!; eauto using failure_at_grows.
Qed.

Lemma stopped_not_ready w c m e : stopped w c m e → ¬ ready w c.
Proof.
  intros [(Hn & _)|(d & Hd & Hm & _ & Hf)] (Hs & Hlen & Hfiles).
  - rewrite Hn in Hs. by destruct Hs.
  - pose proof (lookup_lt_Some _ _ _ Hd) as Hlt.
    destruct Hf as [(Hn & _)|[(olds & Ho & Hi & _)|(olds & j & Ho & Hj & Hfile & _)]].
    + unfold prior_jobs in Hlen. rewrite Hn in Hlen. simpl in Hlen. lia.
    + unfold prior_jobs in Hlen. rewrite Ho in Hlen. simpl in Hlen.
      apply lookup_ge_None in Hi. lia.
    + assert (Hin : d ∈ prior_dirs w c) by (apply list_elem_of_lookup; eauto).
      apply Hfiles in Hin. rewrite Hfile in Hin. by destruct Hin.
Qed.

Lemma setup_cal_spec cal w :
  ∃ w' o evs,
    Measurement_setup_cal new_job self cal w = (w', o)
    ∧ grows w w' evs ∧ files w' = files w
    ∧ (∀ r, r ≠ cal → add_jobs_for r evs = [])
    ∧ match o with
      | Return _ => ready w cal ∧ add_jobs_for cal evs = expected_static self w cal
      | Raise e => ∃ m, stopped w cal m e
                        ∧ add_jobs_for cal evs = static_dir self <$> take m (prior_jobs w cal)
      end.
Proof.
  unfold Measurement_setup_cal.
  set (w1 := set_store (λ st, <[cal := with_incar "NSW" (PInt 0) (st cal)]> st) w).
  assert (G1 : grows w w1 []).
  { split; simpl; intros; rewrite ?app_nil_r, ?store_update;
      repeat case_decide; subst; simpl; first [done | lia]. }
  assert (F1 : files w1 = files w) by done.
  unfold bind at 1, update, modify. fold w1.
  unfold bind at 1, bind at 1, gets, attr.
  replace (old_job_dir_list (store w1 cal)) with (old_job_dir_list (store w cal))
    by (symmetry; apply (grows_old_dirs _ _ _ G1)).
  destruct (old_job_dir_list (store w cal)) as [ds|] eqn:Hds.
  - unfold ret, enumerate.
    destruct (setup_jobs_spec cal ds 0 w1)
      as (w2 & o & evs & m & Hloop & G2 & F2 & Hoth & Hadd & Hlen & Hfiles & Ho).
    rewrite Hloop. exists w2, o, evs.
    rewrite (prior_jobs_grows _ _ _ _ G1), drop_0 in Hadd, Hlen.
    assert (Hpd : prior_dirs w cal = ds) by (unfold prior_dirs; by rewrite Hds).
    split_and!; [done| |congruence|done|].
    + replace evs with ([] ++ evs) by done. eauto using grows_trans.
    + destruct o as [[]|e].
      * subst m. split.
        -- unfold ready. rewrite Hds, Hpd. split_and!; [by eexists| |].
           ++ rewrite length_take in Hlen. lia.
           ++ intros d [i Hi]%list_elem_of_lookup. rewrite <- F1.
              apply (Hfiles i); [by eapply lookup_lt_Some|done].
        -- unfold expected_static. by rewrite Hpd.
      * destruct Ho as (d & Hd & Hfail). exists m. split; [|done].
        right. exists d. rewrite Hpd. split_and!; try done.
        -- rewrite length_take in Hlen. lia.
        -- eauto using failure_at_grows.
  - exists w1, (Raise (AttributeError "old_job_dir_list")), []. simpl.
    split_and!; try done. exists 0. split; [by left|done].
Qed.

(** ** The generic step as a whole *)

Lemma setup_loop_spec objs : ∀ w,
  ∃ w' o evs,
    for_each objs (Measurement_setup_cal new_job self) w = (w', o)
    ∧ grows w w' evs ∧ files w' = files w
    ∧ match o with
      | Return _ => (∀ c, c ∈ objs → ready w c)
                    ∧ ∀ r, add_jobs_for r evs = calls_on self w r objs
      | Raise e => ∃ pre c post m,
          objs = pre ++ c :: post
          ∧ (∀ c', c' ∈ pre → ready w c')
          ∧ stopped w c m e
          ∧ ∀ r, add_jobs_for r evs =
                 calls_on self w r pre
                 ++ (if decide (c = r) then static_dir self <$> take m (prior_jobs w c) else [])
      end.
Proof.
  induction objs as [|c objs IH]; intros w.
  - exists w, (Return tt), []. simpl. split_and!; auto using grows_refl.
    intros c Hc. by apply elem_of_nil in Hc.
  - simpl. unfold bind at 1.
    destruct (setup_cal_spec c w) as (w1 & o1 & evs1 & Hrun & G1 & F1 & Hoth1 & Ho1).
    rewrite Hrun. destruct o1 as [[]|e].
    + destruct Ho1 as [Hready Hadd1].
      assert (Hc : ∀ r, add_jobs_for r evs1 = if decide (c = r) then expected_static self w r else []).
      { intros r. case_decide; subst; auto. }
      destruct (IH w1) as (w2 & o2 & evs2 & Hloop & G2 & F2 & Ho2).
      exists w2, o2, (evs1 ++ evs2). split_and!; try done.
      * eauto using grows_trans.
      * congruence.
      * destruct o2 as [[]|e].
        -- destruct Ho2 as [Hall Hadd2]. split.
           ++ intros c' [->|Hin]%elem_of_cons; eauto using ready_grows.
           ++ intros r. rewrite add_jobs_for_app, Hc, Hadd2. unfold calls_on. simpl.
              f_equal. apply list_bind_ext; [|done]. intros c'.
              by rewrite (expected_static_grows _ _ _ _ G1).
        -- destruct Ho2 as (pre & c' & post & m & -> & Hpre & Hstop & Hadd2).
           exists (c :: pre), c', post, m. split_and!.
           ++ done.
           ++ intros c0 [->|Hin]%elem_of_cons; eauto using ready_grows.
           ++ eauto using stopped_grows.
           ++ intros r. rewrite add_jobs_for_app, Hc, Hadd2. unfold calls_on. simpl.
              rewrite <- app_assoc. f_equal.
              rewrite (prior_jobs_grows _ _ _ _ G1). f_equal.
              apply list_bind_ext; [|done]. intros c0.
              by rewrite (expected_static_grows _ _ _ _ G1).
    + destruct Ho1 as (m & Hstop & Hadd1).
      exists w1, (Raise e), evs1. split_and!; try done.
      exists [], c, objs, m. split_and!; try done.
      * intros c' Hc'. by apply elem_of_nil in Hc'.
      * intros r. simpl. case_decide; subst; auto.
Qed.





(** A step that returns has found every object ready and has made the calls
    listed by [calls_on]. *)
Lemma setup_returns_inv w w' :
  Measurement_setup new_job self w = (w', Return tt) →
  (∀ c, c ∈ cal_objs self → ready w c)
  ∧ ∃ evs, grows w w' evs ∧ files w' = files w
           ∧ ∀ r, add_jobs_for r evs = calls_on self w r (cal_objs self).
Proof.
  unfold Measurement_setup. intros Hrun.
  destruct (setup_loop_spec (cal_objs self) w) as (w2 & o & evs & Hloop & G & F & Ho).
  rewrite Hrun in Hloop. inversion Hloop; subst w2 o.
  destruct Ho as [Hall Hadd]. eauto 10.
Qed.

(** Ready objects are all the step needs to return. *)
Lemma setup_returns w :
  (∀ c, c ∈ cal_objs self → ready w c) →
  ∃ w', Measurement_setup new_job self w = (w', Return tt).
Proof.
  unfold Measurement_setup. intros Hall.
  destruct (setup_loop_spec (cal_objs self) w) as (w2 & o & evs & Hloop & G & F & Ho).
  destruct o as [[]|e]; [eauto|].
  destruct Ho as (pre & c & post & m & Heq & _ & Hstop & _).
  exfalso. apply (stopped_not_ready _ _ _ _ Hstop), Hall.
  rewrite Heq. apply elem_of_app. right. by left.
Qed.




End GenericSetup.

(** ** Statements that register no job *)

Lemma bind_Return {A B} (m : M A) (k : A → M B) w w' b :
  bind m k w = (w', Return b) → ∃ w1 a, m w = (w1, Return a) ∧ k a w1 = (w', Return b).
Proof.
  unfold bind. destruct (m w) as [w1 [a|e]]; [eauto|]. intros H; inversion H.
Qed.

Lemma quiet_ret {A} (a : A) : quiet (ret a).
Proof. intros w w' o H. inversion H; subst. exists []. auto using grows_refl. Qed.

Lemma quiet_raise {A} e : quiet (@raise A e).
Proof. intros w w' o H. inversion H; subst. exists []. auto using grows_refl. Qed.

Lemma quiet_gets {A} (f : World → A) : quiet (gets f).
Proof. intros w w' o H. inversion H; subst. exists []. auto using grows_refl. Qed.

Lemma quiet_bind {A B} (m : M A) (k : A → M B) :
  quiet m → (∀ a, quiet (k a)) → quiet (bind m k).
Proof.
  intros Hm Hk w w' o. unfold bind.
  destruct (m w) as [w1 [a|e]] eqn:Hrun; intros H.
  - destruct (Hm _ _ _ Hrun) as (e1 & G1 & N1).
    destruct (Hk a _ _ _ H) as (e2 & G2 & N2).
    exists (e1 ++ e2). split; [eauto using grows_trans|].
    intros r. by rewrite add_jobs_for_app, N1, N2.
  - inversion H; subst. eauto.
Qed.

Lemma quiet_for_each {A} (l : list A) (body : A → M unit) :
  (∀ x, quiet (body x)) → quiet (for_each l body).
Proof.
  intros Hb. induction l as [|x l IH]; simpl.
  - apply quiet_ret.
  - apply quiet_bind; auto.
Qed.


Lemma quiet_index {A} (l : list A) i : quiet (index l i).
Proof. unfold index. destruct (l !! i); [apply quiet_ret|apply quiet_raise]. Qed.

Lemma quiet_update cal f : keeps f → quiet (update cal f).
Proof.
  intros Hf w w' o H. inversion H; subst. exists []. split; [|done].
  destruct (Hf (store w cal)) as (?&?&?&?&?).
  split; unfold add_jobs_for; simpl; intros; rewrite ?app_nil_r, ?Nat.add_0_r, ?store_update;
    try done; case_decide; subst; try done; congruence.
Qed.

Lemma quiet_emit e :
  (∀ r, add_job_of r e = None) → quiet (modify (emit e)).
Proof.
  intros He w w' o H. inversion H; subst. exists [e]. split.
  - split; simpl; intros; try done; unfold add_jobs_for; simpl; rewrite He;
      simpl; rewrite ?app_nil_r; first [done | lia].
  - intros r. unfold add_jobs_for. simpl. by rewrite He.
Qed.


Lemma quiet_makedirs p : quiet (makedirs p).
Proof.
  intros w w' o H. inversion H; subst. exists [EvMakedirs p]. split; [|done].
  split; simpl; intros; rewrite ?app_nil_r; first [done | lia | apply union_subseteq_r].
Qed.

Lemma quiet_write_file d f c : quiet (write_file d f c).
Proof.
  intros w w' o. unfold write_file.
  destruct (bool_decide (d ∈ dirs w) && _); intros Hrun; inversion Hrun; subst;
    exists []; (split; [|done]).
  - split; unfold add_jobs_for; simpl; intros; rewrite ?app_nil_r; first [done | lia].
  - apply grows_refl.
Qed.

Lemma quiet_json_dump d f c : quiet (json_dump d f c).
Proof.
  apply quiet_bind; [apply quiet_write_file|]. intros _. by apply quiet_emit.
Qed.

Lemma quiet_copy src d f : quiet (copy src d f).
Proof.
  intros w w' o. unfold copy. destruct (files w !! src) as [c|]; intros H.
  - revert H. apply quiet_bind; [apply quiet_write_file|]. intros _. by apply quiet_emit.
  - exact (quiet_raise (A:=unit) _ _ _ _ H).
Qed.

Lemma keeps_with_incar k v : keeps (with_incar k v).
Proof. done. Qed.


(** [add_job] registers one job. *)
Lemma add_job_grows new_job cal d w :
  ∃ w', add_job new_job cal d w = (w', Return tt)
        ∧ grows w w' [EvAddJob cal d] ∧ d ∈ dirs w' ∧ files w' = files w.
Proof.
  eexists. split; [reflexivity|]. simpl.
  split_and!; [|apply elem_of_union_l; by apply elem_of_singleton|done].
  split; simpl; intros; unfold add_jobs_for; simpl; rewrite ?store_update;
    repeat case_decide; subst; simpl; rewrite ?app_nil_r, ?length_app; simpl;
    first [done | lia | apply union_subseteq_r].
Qed.

Lemma add_jobs_for_add_job r cal d :
  add_jobs_for r [EvAddJob cal d] = if decide (cal = r) then [d] else [].
Proof. unfold add_jobs_for. simpl. by case_decide. Qed.

Lemma read_attr_Return {A} (f : World → option A) a w w' x :
  bind (gets f) (λ o, attr o a) w = (w', Return x) → w' = w ∧ f w = Some x.
Proof.
  unfold bind, gets, attr. destruct (f w); intros H; inversion H; by subst.
Qed.

Lemma index_Return {A} (l : list A) i w w' x :
  index l i w = (w', Return x) → w' = w ∧ l !! i = Some x.
Proof.
  unfold index. destruct (l !! i); intros H; inversion H; by subst.
Qed.

Lemma copy_Return src d f w w' :
  copy src d f w = (w', Return tt) →
  grows w w' [EvCopy src (d +:+ sep +:+ f)] ∧ is_Some (files w !! src).
Proof.
  unfold copy. destruct (files w !! src) as [c|]; [|intros H; inversion H].
  intros (w1 & [] & Hw & He)%bind_Return. split; [|by eexists].
  inversion He; subst. unfold write_file in Hw.
  destruct (bool_decide (d ∈ dirs w) && _); inversion Hw; subst.
  split; unfold add_jobs_for; simpl; intros; rewrite ?app_nil_r; first [done | lia].
Qed.

Lemma bind_if_replicate {A} (r : nat) (l : list A) objs :
  objs ≫= (λ c, if decide (c = r) then l else [])
  = mjoin (replicate (length (filter (eq r) objs)) l).
Proof.
  induction objs as [|c objs IH]; [done|].
  change ((c :: objs) ≫= (λ c, if decide (c = r) then l else []))
    with ((if decide (c = r) then l else []) ++ (objs ≫= (λ c, if decide (c = r) then l else []))).
  rewrite IH, filter_cons. destruct (decide (c = r)) as [->|Hne].
  - by rewrite decide_True.
  - by rewrite decide_False by congruence.
Qed.

(** ** The solvation step *)

Section SolvationSetup.

Variable new_job : path → Job.
Variable self : MeasurementSolvation.

(** The statements of the loop body before [shutil.copy]. *)
Lemma quiet_unpack cal key :
  quiet (kv <- unpack_pair key ;; update cal (with_incar kv.1 (PStr kv.2))).
Proof.
  apply quiet_bind.
  - unfold unpack_pair. destruct key as [|a [|b [|c s]]];
      first [apply quiet_ret | apply quiet_raise].
  - intros kv. apply quiet_update, keeps_with_incar.
Qed.

(** Processing one object: when it goes through, it has used the first
    prior job and the first prior directory, and nothing else of the
    archived lists. *)
Lemma solvation_cal_inv cal w w' :
  MeasurementSolvation_setup_cal new_job self cal w = (w', Return tt) →
  ∃ evs j0 d0,
    grows w w' evs
    ∧ prior_jobs w cal !! 0 = Some j0
    ∧ prior_dirs w cal !! 0 = Some d0
    ∧ (∀ r, add_jobs_for r evs = if decide (cal = r) then [sol_dir self j0] else [])
    ∧ EvCopy (wavecar d0) (sol_dir self j0 +:+ sep +:+ "WAVECAR") ∈ evs
    ∧ sol_dir self j0 ∈ dirs w'.
Proof.
  unfold MeasurementSolvation_setup_cal.
  intros (w1 & [] & H1 & H)%bind_Return.
  apply bind_Return in H as (w2 & olds & [-> Holds]%read_attr_Return & H).
  apply bind_Return in H as (w2 & j0 & [-> Hj0]%index_Return & H).
  fold (sol_dir self j0) in H.
  apply bind_Return in H as (w2 & [] & H2 & H).
  apply bind_Return in H as (w3 & ex & H3 & H).
  apply bind_Return in H as (w4 & [] & H4 & H).
  apply bind_Return in H as (w5 & [] & H5 & H).
  apply bind_Return in H as (w6 & ds & [-> Hds]%read_attr_Return & H).
  apply bind_Return in H as (w6 & d0 & [-> Hd0]%index_Return & H).
  apply bind_Return in H as (w6 & [] & [G6 _]%copy_Return & H).
  destruct (add_job_grows new_job cal (sol_dir self j0) w6) as (w7 & Hrun & G7 & Hdir & _).
  rewrite Hrun in H. inversion H; subst w7.
  apply (quiet_update _ _ (keeps_with_incar _ _)) in H1 as (e1 & G1 & N1).
  apply (quiet_for_each _ _ (quiet_unpack cal)) in H2 as (e2 & G2 & N2).
  apply quiet_gets in H3 as (e3 & G3 & N3).
  assert (∃ e4, grows w3 w4 e4 ∧ ∀ r, add_jobs_for r e4 = []) as (e4 & G4 & N4).
  { destruct (negb ex); [by apply quiet_makedirs in H4|by apply quiet_ret in H4]. }
  apply quiet_json_dump in H5 as (e5 & G5 & N5).
  pose proof (grows_trans _ _ _ _ _ G1 G2) as G12.
  pose proof (grows_trans _ _ _ _ _ G12 G3) as G13.
  pose proof (grows_trans _ _ _ _ _ G13 G4) as G14.
  pose proof (grows_trans _ _ _ _ _ G14 G5) as G15.
  pose proof (grows_trans _ _ _ _ _ G15 G6) as G16.
  pose proof (grows_trans _ _ _ _ _ G16 G7) as G17.
  eexists _, j0, d0. split; [exact G17|]. split_and!.
  - unfold prior_jobs. rewrite <- (grows_old_jobs _ _ _ G1), Holds. done.
  - unfold prior_dirs. rewrite <- (grows_old_dirs _ _ _ G15), Hds. done.
  - intros r. rewrite !add_jobs_for_app, N1, N2, N3, N4, N5. simpl.
    apply add_jobs_for_add_job.
  - rewrite !elem_of_app, list_elem_of_singleton. auto.
  - done.
Qed.

Lemma solvation_loop_inv objs : ∀ w w',
  for_each objs (MeasurementSolvation_setup_cal new_job self) w = (w', Return tt) →
  ∃ evs,
    grows w w' evs
    ∧ (∀ r, add_jobs_for r evs = sol_calls_on self w r objs)
    ∧ ∀ c, c ∈ objs → ∃ j0 d0,
        prior_jobs w c !! 0 = Some j0 ∧ prior_dirs w c !! 0 = Some d0
        ∧ EvCopy (wavecar d0) (sol_dir self j0 +:+ sep +:+ "WAVECAR") ∈ evs
        ∧ sol_dir self j0 ∈ dirs w'.
Proof.
  induction objs as [|c objs IH]; intros w w' H.
  - inversion H; subst. exists []. split_and!; auto using grows_refl.
    intros c Hc. by apply elem_of_nil in Hc.
  - simpl in H. apply bind_Return in H as (w1 & [] & Hc & H).
    apply solvation_cal_inv in Hc as (e1 & j0 & d0 & G1 & Hj0 & Hd0 & Hadd1 & Hcopy & Hdir).
    apply IH in H as (e2 & G2 & Hadd2 & Hall).
    exists (e1 ++ e2). split_and!.
    + eauto using grows_trans.
    + intros r. rewrite add_jobs_for_app, Hadd1, Hadd2.
      change (sol_calls_on self w r (c :: objs))
        with ((if decide (c = r) then sol_dir self <$> take 1 (prior_jobs w r) else [])
              ++ sol_calls_on self w r objs).
      f_equal.
      * case_decide; [subst|done]. destruct (prior_jobs w r); by inversion Hj0.
      * unfold sol_calls_on. apply list_bind_ext; [|done]. intros c'.
        by rewrite (prior_jobs_grows _ _ _ _ G1).
    + intros c' [->|Hin]%elem_of_cons.
      * exists j0, d0. split_and!; try done.
        -- apply elem_of_app. by left.
        -- by apply (grows_dirs _ _ _ G2).
      * destruct (Hall c' Hin) as (j & d & Hj & Hd & Hcp & Hdr).
        exists j, d. rewrite (prior_jobs_grows _ _ _ _ G1), (prior_dirs_grows _ _ _ _ G1) in *.
        split_and!; try done. apply elem_of_app. by right.
Qed.


(** C7. The loop [for k, v in self.sol_params] walks the keys of the dict and
    unpacks each key: unless the first key has exactly two characters, the
    solvation [setup()] raises [ValueError] on the first handle, after
    setting [LSOL] and before writing any solvation parameter. *)
Theorem solvation_params_not_written w cal rest k v ps j0 js :
  cal_objs (sol_base self) = cal :: rest →
  sol_params self = (k, v) :: ps →
  String.length k ≠ 2 →
  old_jobs (store w cal) = Some (j0 :: js) →
  ∃ w' msg,
    MeasurementSolvation_setup new_job self w = (w', Raise (ValueError msg))
    ∧ incar (store w' cal) = <["LSOL" := PStr ".TRUE."]> (incar (store w cal))
    ∧ trace w' = trace w ∧ files w' = files w ∧ dirs w' = dirs w.
Proof.
  intros Hobjs Hparams Hlen Hold.
  unfold MeasurementSolvation_setup, MeasurementSolvation_setup_cal.
  rewrite Hobjs, Hparams. simpl.
  unfold bind, update, modify, gets, attr. simpl.
  rewrite store_update_eq. simpl. rewrite Hold. simpl.
  unfold unpack_pair. destruct k as [|a [|b [|c s]]]; simpl in *; try done;
    eexists _, _; (split; [reflexivity|]); simpl; by rewrite store_update_eq.
Qed.

End SolvationSetup.

(** ** The directory naming convention *)

Lemma replace_length old new s : String.length (replace old new s) = String.length s.
Proof. induction s as [|c s IH]; simpl; congruence. Qed.

Lemma replace_get old new s : ∀ i,
  String.get i (replace old new s)
  = (λ c, if Ascii.eqb c old then new else c) <$> String.get i s.
Proof.
  induction s as [|c s IH]; intros [|i]; simpl; auto.
Qed.

Lemma replace_twice_sanitized s :
  sanitized s (replace "."%char "_"%char (replace os_sep "_"%char s)).
Proof.
  split; [by rewrite !replace_length|].
  intros i. rewrite !replace_get. destruct (String.get i s) as [c|]; [|done].
  simpl. f_equal.
  destruct (Ascii.eqb_spec c os_sep) as [->|Hsep].
  - by rewrite decide_True by auto.
  - destruct (Ascii.eqb_spec c "."%char) as [->|Hdot].
    + by rewrite decide_True by auto.
    + by rewrite decide_False by (intros [?|?]; done).
Qed.

(** C9. Every new job directory that a [setup()] hands to [add_job] is the
    step's base directory, then the name of the prior job with each path
    separator and each dot turned into an underscore, then the fixed suffix,
    joined by path separators.  The generic step does so for every prior job
    index below the number of prior directories, with suffix [STATIC]; the
    solvation step for the prior job it derives from, with suffix [SOL]. *)
Theorem derived_directory_convention new_job :
  (∀ self w w',
     Measurement_setup new_job self w = (w', Return tt) →
     ∃ evs, trace w' = trace w ++ evs
       ∧ ∀ c, c ∈ cal_objs self →
           (∀ i, i < length (prior_dirs w c) → is_Some (prior_jobs w c !! i))
           ∧ add_jobs_for c evs
             = mjoin (replicate (length (filter (eq c) (cal_objs self)))
                        ((λ j, derived_dir (job_dir self) (name j) "STATIC")
                           <$> take (length (prior_dirs w c)) (prior_jobs w c))))
  ∧ (∀ self w w',
       MeasurementSolvation_setup new_job self w = (w', Return tt) →
       ∃ evs, trace w' = trace w ++ evs
         ∧ ∀ c, c ∈ cal_objs (sol_base self) →
             is_Some (prior_jobs w c !! 0)
             ∧ add_jobs_for c evs
               = mjoin (replicate (length (filter (eq c) (cal_objs (sol_base self))))
                          ((λ j, derived_dir (job_dir (sol_base self)) (name j) "SOL")
                             <$> take 1 (prior_jobs w c))))
  ∧ (∀ base n suffix, ∃ n',
       derived_dir base n suffix = base +:+ sep +:+ n' +:+ sep +:+ suffix
       ∧ sanitized n n').
Proof.
  split_and!.
  - intros self w w' (Hready & evs & G & _ & Hadd)%setup_returns_inv.
    exists evs. split; [apply G|]. intros c Hc. split.
    + intros i Hi. apply lookup_lt_is_Some. destruct (Hready c Hc) as (_ & Hlen & _). lia.
    + rewrite Hadd. apply bind_if_replicate.
  - intros self w w' (evs & G & Hadd & Hall)%solvation_loop_inv.
    exists evs. split; [apply G|]. intros c Hc. split.
    + destruct (Hall c Hc) as (j0 & _ & -> & _). by eexists.
    + rewrite Hadd. apply bind_if_replicate.
  - intros base n suffix. eexists. split; [reflexivity|]. apply replace_twice_sanitized.
Qed.

(** ** Collecting energies *)

Lemma emits_nil w : emits [] w = w.
Proof. destruct w. unfold emits. simpl. by rewrite app_nil_r. Qed.

Lemma emits_emits e1 e2 w : emits e2 (emits e1 w) = emits (e1 ++ e2) w.
Proof. unfold emits. simpl. by rewrite app_assoc. Qed.

Lemma emit_emits e w : emit e w = emits [e] w.
Proof. done. Qed.

Lemma get_energy_entries d entries : ∀ energies w,
  for_fold entries energies (get_energy_entry d) w
  = (emits (energy_log d <$> records entries) w,
     Return (energies ++ (energy <$> records entries))).
Proof.
  induction entries as [|[e|] entries IH]; intros energies w; simpl.
  - by rewrite emits_nil, app_nil_r.
  - unfold bind, log, modify, ret. simpl.
    rewrite IH, emit_emits, emits_emits, <- app_assoc. done.
  - unfold bind, ret. simpl. apply IH.
Qed.

Section GetEnergy.

Variable f : path → list (option Entry).

Lemma get_energy_dirs ds : ∀ acc w,
  mod_assimilate w = Some f →
  for_fold ds acc (λ job_dir energies,
    g <- gets mod_assimilate ;;
    assimilate <- match g with
                  | Some f => ret f
                  | None => raise (NameError "MPINTVaspDrone")
                  end ;;
    for_fold (assimilate job_dir) energies (get_energy_entry job_dir)) w
  = (emits (ds ≫= (λ d, energy_log d <$> records (f d))) w,
     Return (acc ++ (ds ≫= (λ d, energy <$> records (f d))))).
Proof.
  induction ds as [|d ds IH]; intros acc w Hf; simpl.
  - by rewrite emits_nil, app_nil_r.
  - unfold bind at 1, bind at 1, bind at 1, gets. rewrite Hf. simpl.
    rewrite get_energy_entries, IH by done.
    by rewrite emits_emits, <- app_assoc.
Qed.

(** C8 (amended). With the output parser bound, [get_energy] returns one
    list per handle holding the energy of every result record of every
    current output directory, in order: its length is the total number of
    records, which is the number of directories that yielded a record only
    when each yields at most one.  It logs one line per energy and changes
    nothing else, so a directory that yields no record adds no energy and no
    log line, and does not make it fail. *)
Theorem get_energy_concatenates cal w :
  mod_assimilate w = Some f →
  let ds := job_dir_list (store w cal) in
  get_energy cal w
  = (emits (ds ≫= (λ d, energy_log d <$> records (f d))) w,
     Return (ds ≫= (λ d, energy <$> records (f d))))
  ∧ length (ds ≫= (λ d, energy <$> records (f d)))
    = sum_list ((λ d, length (records (f d))) <$> ds)
  ∧ (Forall (λ d, (length (records (f d)) ≤ 1)%nat) ds →
     length (ds ≫= (λ d, energy <$> records (f d)))
     = length (filter (λ d, records (f d) ≠ []) ds)).
Proof.
  intros Hf ds. split_and!.
  - unfold get_energy, bind at 1, gets. fold ds.
    exact (get_energy_dirs ds [] w Hf).
  - induction ds as [|d ds' IH]; [done|].
    change ((d :: ds') ≫= (λ d, energy <$> records (f d)))
      with ((energy <$> records (f d)) ++ (ds' ≫= (λ d, energy <$> records (f d)))).
    rewrite length_app, length_fmap, IH. done.
  - induction 1 as [|d ds' Hd Hds IH]; [done|].
    change ((d :: ds') ≫= (λ d, energy <$> records (f d)))
      with ((energy <$> records (f d)) ++ (ds' ≫= (λ d, energy <$> records (f d)))).
    rewrite length_app, length_fmap, IH, filter_cons.
    case_decide as Hne; simpl.
    + destruct (records (f d)) as [|e [|e' es]]; simpl in *; [done|done|lia].
    + by rewrite Hne.
Qed.

End GetEnergy.

(** As the module stands, [MPINTVaspDrone] is bound nowhere: [get_energy]
    gets through only for a handle without current directories. *)
Lemma get_energy_unbound new_d ds cal w :
  mod_assimilate w = None →
  job_dir_list (store w cal) = new_d :: ds →
  get_energy cal w = (w, Raise (NameError "MPINTVaspDrone")).
Proof.
  intros Hf Hds. unfold get_energy, bind at 1, gets. rewrite Hds. simpl.
  unfold bind, gets. by rewrite Hf.
Qed.

Lemma get_energy_no_dirs cal w :
  job_dir_list (store w cal) = [] → get_energy cal w = (w, Return []).
Proof.
  intros Hds. unfold get_energy, bind at 1, gets. by rewrite Hds.
Qed.

(** ** The interface measurement *)

Lemma keepsE_ret {A} (a : A) : keepsE (ret a).
Proof. intros w w' o H. by inversion H. Qed.

Lemma keepsE_raise {A} e : keepsE (@raise A e).
Proof. intros w w' o H. by inversion H. Qed.

Lemma keepsE_gets {A} (f : World → A) : keepsE (gets f).
Proof. intros w w' o H. by inversion H. Qed.

Lemma keepsE_log lvl fmt args : keepsE (log lvl fmt args).
Proof. intros w w' o H. by inversion H. Qed.

Lemma keepsE_bind {A B} (m : M A) (k : A → M B) :
  keepsE m → (∀ a, keepsE (k a)) → keepsE (bind m k).
Proof.
  intros Hm Hk w w' o. unfold bind. destruct (m w) as [w1 [a|e]] eqn:Hrun; intros H.
  - rewrite (Hk _ _ _ _ H). eauto.
  - inversion H; subst. eauto.
Qed.

Lemma keepsE_for_fold {A S} (l : list A) (body : A → S → M S) :
  (∀ x acc, keepsE (body x acc)) → ∀ acc, keepsE (for_fold l acc body).
Proof.
  intros Hb. induction l as [|x l IH]; intros acc; simpl.
  - apply keepsE_ret.
  - apply keepsE_bind; auto.
Qed.

Lemma keepsE_attr {A} (o : option A) a : keepsE (attr o a).
Proof. destruct o; [apply keepsE_ret|apply keepsE_raise]. Qed.

Lemma keepsE_getitem {A} (d : gmap string A) k : keepsE (getitem d k).
Proof. unfold getitem. destruct (d !! k); [apply keepsE_ret|apply keepsE_raise]. Qed.

Lemma keepsE_get_energy cal : keepsE (get_energy cal).
Proof.
  apply keepsE_bind; [apply keepsE_gets|]. intros ds.
  apply keepsE_for_fold. intros d acc.
  apply keepsE_bind; [apply keepsE_gets|]. intros g.
  apply keepsE_bind; [destruct g; [apply keepsE_ret|apply keepsE_raise]|]. intros f.
  apply keepsE_for_fold. intros [e|] acc'; simpl; [|apply keepsE_ret].
  apply keepsE_bind; [apply keepsE_ret|]. intros es.
  apply keepsE_bind; [apply keepsE_log|]. intros _. apply keepsE_ret.
Qed.

Lemma keepsE_read_miller_index cal : keepsE (read_miller_index cal).
Proof.
  apply keepsE_bind; [|intros; apply keepsE_attr].
  apply keepsE_bind; [apply keepsE_gets|intros; apply keepsE_attr].
Qed.

Lemma keepsE_read_formula cal : keepsE (read_formula cal).
Proof.
  apply keepsE_bind; [|intros; apply keepsE_attr].
  apply keepsE_bind; [apply keepsE_gets|intros; apply keepsE_attr].
Qed.

Lemma keepsE_measure_slab cal E : keepsE (measure_slab cal E).
Proof.
  apply keepsE_bind; [apply keepsE_read_miller_index|]. intros hkl.
  apply keepsE_bind; [apply keepsE_get_energy|]. intros es. apply keepsE_ret.
Qed.

Lemma keepsE_measure_ligand cal E : keepsE (measure_ligand cal E).
Proof.
  apply keepsE_bind; [apply keepsE_read_formula|]. intros key.
  apply keepsE_bind; [apply keepsE_get_energy|]. intros es. apply keepsE_ret.
Qed.

Lemma fails_bind_l {A B} (m : M A) (k : A → M B) : fails m → fails (bind m k).
Proof.
  intros Hm w. destruct (Hm w) as (w' & e & Hrun & HE).
  exists w', e. unfold bind. by rewrite Hrun.
Qed.

Lemma fails_bind_r {A B} (m : M A) (k : A → M B) :
  keepsE m → (∀ a, fails (k a)) → fails (bind m k).
Proof.
  intros Hm Hk w. unfold bind. destruct (m w) as [w1 [a|e]] eqn:Hrun.
  - destruct (Hk a w1) as (w' & e & Hk' & HE). exists w', e. split; [done|].
    rewrite HE. eauto.
  - exists w1, e. split; [done|]. eauto.
Qed.

Lemma read_miller_index_run cal w sys hkl :
  system (store w cal) = Some sys → miller_index sys = Some hkl →
  read_miller_index cal w = (w, Return hkl).
Proof.
  intros Hs Hm. unfold read_miller_index, bind, gets, attr. rewrite Hs. simpl. by rewrite Hm.
Qed.

Lemma read_formula_run cal w sys fm :
  system (store w cal) = Some sys → ligand_formula sys = Some fm →
  read_formula cal w = (w, Return fm).
Proof.
  intros Hs Hm. unfold read_formula, bind, gets, attr. rewrite Hs. simpl. by rewrite Hm.
Qed.

Lemma measure_interface_missing_slab E_slabs E_ligands acc cal w w' sys hkl fm es :
  system (store w cal) = Some sys →
  miller_index sys = Some hkl →
  ligand_formula sys = Some fm →
  get_energy cal w = (w', Return es) →
  E_slabs !! str_list hkl = None →
  measure_interface E_slabs E_ligands cal acc w = (w', Raise (KeyError (str_list hkl))).
Proof.
  intros Hsys Hhkl Hfm Hen Hmiss. unfold measure_interface.
  unfold bind at 1. rewrite (read_miller_index_run _ _ _ _ Hsys Hhkl).
  unfold bind at 1. rewrite (read_formula_run _ _ _ _ Hsys Hfm).
  unfold bind at 1. rewrite Hen.
  unfold bind at 1, getitem at 1. rewrite lookup_insert_eq. unfold ret at 1.
  unfold bind at 1, getitem at 1. by rewrite Hmiss.
Qed.

(** A list has no subtraction. *)
Lemma py_sub_list l b : fails (py_sub (PList l) b).
Proof. intros w. destruct b; eexists _, _; split; reflexivity. Qed.

(** The body of the third loop gets to the subtraction of two lists at the
    latest: it never returns and never assigns a binding energy. *)
Lemma measure_interface_fails E_slabs E_ligands cal acc :
  fails (measure_interface E_slabs E_ligands cal acc).
Proof.
  unfold measure_interface.
  apply fails_bind_r; [apply keepsE_read_miller_index|]. intros hkl.
  apply fails_bind_r; [apply keepsE_read_formula|]. intros key_ligand.
  apply fails_bind_r; [apply keepsE_get_energy|]. intros es.
  unfold getitem at 1. rewrite lookup_insert_eq.
  change (bind (ret ?v) ?k) with (k v). cbv beta.
  apply fails_bind_r; [apply keepsE_getitem|]. intros e_slab.
  apply fails_bind_l, py_sub_list.
Qed.

Section InterfaceMeasurement.

Variable self : MeasurementInterface.

(** With an interface handle to measure, [make_measurements] raises, and no
    binding energy is stored. *)
Lemma make_measurements_fails :
  cal_interfaces self ≠ [] → fails (MeasurementInterface_make_measurements self).
Proof.
  intros Hne. unfold MeasurementInterface_make_measurements.
  apply fails_bind_r; [apply keepsE_for_fold, keepsE_measure_slab|]. intros E_slabs.
  apply fails_bind_r; [apply keepsE_for_fold, keepsE_measure_ligand|]. intros E_ligands.
  apply fails_bind_l. destruct (cal_interfaces self) as [|cal rest]; [done|].
  simpl. apply fails_bind_l, measure_interface_fails.
Qed.

(** As the module stands, [E_binding] is bound nowhere, and
    [make_measurements] raises for every set of handles. *)
Lemma make_measurements_unbound w :
  mod_E_binding w = None →
  ∃ w' e, MeasurementInterface_make_measurements self w = (w', Raise e).
Proof.
  intros HE.
  destruct (decide (cal_interfaces self = [])) as [Hnil|Hne].
  2:{ destruct (make_measurements_fails Hne w) as (w' & e & Hrun & _). eauto. }
  unfold MeasurementInterface_make_measurements. rewrite Hnil.
  unfold bind at 1.
  destruct (for_fold (cal_slabs self) ∅ measure_slab w) as [w1 [E_slabs|e]] eqn:H1; [|eauto].
  unfold bind at 1.
  destruct (for_fold (cal_ligands self) ∅ measure_ligand w1) as [w2 [E_ligands|e]] eqn:H2;
    [|eauto].
  apply (keepsE_for_fold _ _ keepsE_measure_slab) in H1.
  apply (keepsE_for_fold _ _ keepsE_measure_ligand) in H2.
  simpl. unfold bind, ret, gets. rewrite H2, H1, HE. eauto.
Qed.

(** C5 (amended). When the slab key of an interface handle has no entry in
    the slab-energy table, the operation fails with the [KeyError] of the
    dict lookup, which carries that key; the lookup comes before the
    subtraction, so nothing is computed or stored in place of the missing
    value.  (There is no separate validation and no [MissingCorrelationError]
    class.) *)
Theorem missing_slab_energy_raises_KeyError w w1 w2 w3 E_slabs E_ligands cal rest sys hkl fm es :
  for_fold (cal_slabs self) ∅ measure_slab w = (w1, Return E_slabs) →
  for_fold (cal_ligands self) ∅ measure_ligand w1 = (w2, Return E_ligands) →
  cal_interfaces self = cal :: rest →
  system (store w2 cal) = Some sys →
  miller_index sys = Some hkl →
  ligand_formula sys = Some fm →
  get_energy cal w2 = (w3, Return es) →
  E_slabs !! str_list hkl = None →
  MeasurementInterface_make_measurements self w = (w3, Raise (KeyError (str_list hkl)))
  ∧ mod_E_binding w3 = mod_E_binding w.
Proof.
  intros H1 H2 Hint Hsys Hhkl Hfm Hen Hmiss. split.
  - unfold MeasurementInterface_make_measurements.
    unfold bind at 1. rewrite H1. unfold bind at 1. rewrite H2. rewrite Hint.
    unfold bind at 1. simpl for_fold. unfold bind at 1.
    by rewrite (measure_interface_missing_slab _ _ _ _ _ _ _ _ _ _ Hsys Hhkl Hfm Hen Hmiss).
  - apply (keepsE_for_fold _ _ keepsE_measure_slab) in H1.
    apply (keepsE_for_fold _ _ keepsE_measure_ligand) in H2.
    apply keepsE_get_energy in Hen. congruence.
Qed.

End InterfaceMeasurement.

(** ** Construction *)

(** C3. [Measurement.__init__] reads [cal.job_dir_list] where the loop
    variable is [obj].  In the module as imported no [cal] is bound, and
    constructing a step over a non-empty sequence of handles raises
    [NameError] on the first handle: its jobs have been archived and reset by
    then, its directory list has been neither archived nor reset, and the
    remaining handles have not been touched. *)
Theorem init_raises_NameError obj rest jd w :
  mod_cal w = None →
  ∃ w',
    Measurement_init (obj :: rest) jd w = (w', Raise (NameError "cal"))
    ∧ old_jobs (store w' obj) = Some (jobs (store w obj))
    ∧ jobs (store w' obj) = []
    ∧ old_job_dir_list (store w' obj) = old_job_dir_list (store w obj)
    ∧ job_dir_list (store w' obj) = job_dir_list (store w obj)
    ∧ ∀ r, r ≠ obj → store w' r = store w r.
Proof.
  intros Hcal. eexists. split.
  - unfold Measurement_init, Measurement_init_loop. simpl.
    unfold bind, update, modify, gets. simpl. rewrite Hcal. reflexivity.
  - simpl. rewrite !store_update_eq. split_and!; try done.
    intros r Hr. by rewrite !store_update, !decide_False by done.
Qed.

(** When the module is run as a script, its test block binds [cal] at module
    level; a step built over that one object then archives as intended. *)
Lemma init_single_bound obj jd w :
  mod_cal w = Some obj →
  ∃ w',
    Measurement_init [obj] jd w = (w', Return {| cal_objs := [obj]; job_dir := jd |})
    ∧ old_jobs (store w' obj) = Some (jobs (store w obj))
    ∧ old_job_dir_list (store w' obj) = Some (job_dir_list (store w obj))
    ∧ jobs (store w' obj) = []
    ∧ job_dir_list (store w' obj) = [].
Proof.
  intros Hcal. eexists. split.
  - unfold Measurement_init, Measurement_init_loop. simpl.
    unfold bind, update, modify, gets. simpl. rewrite Hcal. simpl. reflexivity.
  - simpl. by rewrite !store_update_eq.
Qed.

(** ** The claims on concrete inputs *)

Lemma run_eq {A} (m : M A) w a : (m w).2 = Return a → m w = ((m w).1, Return a).
Proof. destruct (m w) as [w' o]. simpl. by intros ->. Qed.


(** C2. On the example of the spec the tables hold the three energies, and
    the operation raises [TypeError] at the subtraction of the slab energies
    from the interface energies, both lists; no binding energy is stored.  In
    the module as imported it does not get that far: [get_energy] raises
    [NameError] on the first slab. *)
Theorem binding_energy_example_raises :
  (for_fold (cal_slabs ex2_self) ∅ measure_slab ex2_world).2
  = Return {[ "[1, 0, 0]" := energies_val [((-7) # 1)%Q] ]}
  ∧ (for_fold (cal_ligands ex2_self) ∅ measure_ligand ex2_world).2
    = Return {[ "Ligand2" := energies_val [((-1) # 1)%Q] ]}
  ∧ (get_energy 2 ex2_world).2 = Return [((-10) # 1)%Q]
  ∧ (MeasurementInterface_make_measurements ex2_self ex2_world).2
    = Raise (TypeError "unsupported operand type(s) for -: 'list' and 'list'")
  ∧ mod_E_binding (MeasurementInterface_make_measurements ex2_self ex2_world).1 = Some ∅
  ∧ (MeasurementInterface_make_measurements ex2_self ex2_imported).2
    = Raise (NameError "MPINTVaspDrone").
Proof. split_and!; vm_compute; reflexivity. Qed.

Lemma init_raises_NameError_witness :
  mod_cal (imported (λ _, two_jobs_cal) ∅ ∅) = None
  ∧ ∃ w',
      Measurement_init (0 :: []) "./Measurement" (imported (λ _, two_jobs_cal) ∅ ∅)
      = (w', Raise (NameError "cal"))
      ∧ old_jobs (store w' 0) = Some (jobs (store (imported (λ _, two_jobs_cal) ∅ ∅) 0))
      ∧ jobs (store w' 0) = []
      ∧ old_job_dir_list (store w' 0)
        = old_job_dir_list (store (imported (λ _, two_jobs_cal) ∅ ∅) 0)
      ∧ job_dir_list (store w' 0) = job_dir_list (store (imported (λ _, two_jobs_cal) ∅ ∅) 0)
      ∧ ∀ r, r ≠ 0 → store w' r = store (imported (λ _, two_jobs_cal) ∅ ∅) r.
Proof.
  split; [reflexivity|].
  exact (init_raises_NameError 0 [] "./Measurement" (imported (λ _, two_jobs_cal) ∅ ∅) eq_refl).
Defined.



(** C5, refuted. With an interface measured and no slab, the operation
    raises [KeyError]. *)
Lemma missing_slab_energy_counterexample :
  (MeasurementInterface_make_measurements ex5_self ex2_world).2
  = Raise (KeyError "[1, 0, 0]")
  ∧ ¬ (∃ e, (MeasurementInterface_make_measurements ex5_self ex2_world).2 = Raise e
            ∧ exn_class e = "MissingCorrelationError").
Proof.
  split; [vm_compute; reflexivity|].
  intros (e & He & Hc). vm_compute in He. inversion He; subst. discriminate.
Qed.

Lemma missing_slab_energy_raises_KeyError_witness :
  MeasurementInterface_make_measurements ex5_self ex2_world
  = ((get_energy 2 ex2_world).1, Raise (KeyError (str_list [1; 0; 0]%Z)))
  ∧ mod_E_binding (get_energy 2 ex2_world).1 = mod_E_binding ex2_world.
Proof.
  apply (missing_slab_energy_raises_KeyError ex5_self ex2_world ex2_world ex2_world
           (get_energy 2 ex2_world).1 ∅ ∅ 2 [] interface_system [1; 0; 0]%Z "Ligand2"
           [((-10) # 1)%Q]).
  - reflexivity.
  - reflexivity.
  - reflexivity.
  - reflexivity.
  - reflexivity.
  - reflexivity.
  - apply run_eq. vm_compute. reflexivity.
  - reflexivity.
Defined.



Lemma solvation_params_not_written_witness :
  ∃ w' msg,
    MeasurementSolvation_setup ex_new_job ex7_self ex7_before = (w', Raise (ValueError msg))
    ∧ incar (store w' 0) = <["LSOL" := PStr ".TRUE."]> (incar (store ex7_before 0))
    ∧ trace w' = trace ex7_before ∧ files w' = files ex7_before ∧ dirs w' = dirs ex7_before.
Proof.
  apply (solvation_params_not_written ex_new_job ex7_self ex7_before 0 [] "EB_K" (PInt 80)
           [("TAU", PInt 0)] {| name := "a/b.1" |} [ {| name := "c" |} ]).
  - reflexivity.
  - reflexivity.
  - vm_compute. lia.
  - reflexivity.
Defined.

(** C8, refuted. One directory yields two records, the other none: the list
    has two energies, one directory yielded a record, and the log has the
    two energy lines and nothing about the empty directory. *)
Lemma get_energy_counterexample :
  job_dir_list (store ex8_world 0) = ["/m/a"; "/m/b"]
  ∧ records (ex8_assimilate "/m/a") = [ {| energy := ((-3) # 1)%Q |}; {| energy := ((-4) # 1)%Q |} ]
  ∧ records (ex8_assimilate "/m/b") = []
  ∧ (get_energy 0 ex8_world).2 = Return [((-3) # 1)%Q; ((-4) # 1)%Q]
  ∧ trace (get_energy 0 ex8_world).1
    = [energy_log "/m/a" {| energy := ((-3) # 1)%Q |}; energy_log "/m/a" {| energy := ((-4) # 1)%Q |}]
  ∧ ¬ (∃ es, (get_energy 0 ex8_world).2 = Return es
             ∧ length es = length (filter (λ d, records (ex8_assimilate d) ≠ [])
                                     (job_dir_list (store ex8_world 0)))).
Proof.
  split_and!; try (vm_compute; reflexivity).
  intros (es & Hes & Hlen). vm_compute in Hes. inversion Hes; subst es.
  vm_compute in Hlen. discriminate.
Qed.

Lemma get_energy_concatenates_witness :
  mod_assimilate ex8_world = Some ex8_assimilate
  ∧ let ds := job_dir_list (store ex8_world 0) in
    get_energy 0 ex8_world
    = (emits (ds ≫= (λ d, energy_log d <$> records (ex8_assimilate d))) ex8_world,
       Return (ds ≫= (λ d, energy <$> records (ex8_assimilate d))))
    ∧ length (ds ≫= (λ d, energy <$> records (ex8_assimilate d)))
      = sum_list ((λ d, length (records (ex8_assimilate d))) <$> ds)
    ∧ (Forall (λ d, (length (records (ex8_assimilate d)) ≤ 1)%nat) ds →
       length (ds ≫= (λ d, energy <$> records (ex8_assimilate d)))
       = length (filter (λ d, records (ex8_assimilate d) ≠ []) ds)).
Proof.
  split; [reflexivity|].
  exact (get_energy_concatenates ex8_assimilate 0 ex8_world eq_refl).
Defined.

Lemma derived_directory_convention_witness :
  (∃ w', Measurement_setup ex_new_job ex1_self ex1_before = (w', Return tt)
     ∧ ∃ evs, trace w' = trace ex1_before ++ evs
       ∧ ∀ c, c ∈ cal_objs ex1_self →
           (∀ i, i < length (prior_dirs ex1_before c) → is_Some (prior_jobs ex1_before c !! i))
           ∧ add_jobs_for c evs
             = mjoin (replicate (length (filter (eq c) (cal_objs ex1_self)))
                        ((λ j, derived_dir (job_dir ex1_self) (name j) "STATIC")
                           <$> take (length (prior_dirs ex1_before c)) (prior_jobs ex1_before c))))
  ∧ (∃ w', MeasurementSolvation_setup ex_new_job ex4_self ex4_before = (w', Return tt)
       ∧ ∃ evs, trace w' = trace ex4_before ++ evs
         ∧ ∀ c, c ∈ cal_objs (sol_base ex4_self) →
             is_Some (prior_jobs ex4_before c !! 0)
             ∧ add_jobs_for c evs
               = mjoin (replicate (length (filter (eq c) (cal_objs (sol_base ex4_self))))
                          ((λ j, derived_dir (job_dir (sol_base ex4_self)) (name j) "SOL")
                             <$> take 1 (prior_jobs ex4_before c))))
  ∧ (∃ n', derived_dir "./Measurement" "a/b.1" "STATIC"
           = "./Measurement" +:+ sep +:+ n' +:+ sep +:+ "STATIC"
           ∧ sanitized "a/b.1" n').
Proof.
  destruct (derived_directory_convention ex_new_job) as (Hg & Hs & Hn).
  assert (H1 : (Measurement_setup ex_new_job ex1_self ex1_before).2 = Return tt)
    by (vm_compute; reflexivity).
  assert (H4 : (MeasurementSolvation_setup ex_new_job ex4_self ex4_before).2 = Return tt)
    by (vm_compute; reflexivity).
  apply run_eq in H1. apply run_eq in H4.
  split_and!.
  - eexists. split; [exact H1|]. exact (Hg ex1_self ex1_before _ H1).
  - eexists. split; [exact H4|]. exact (Hs ex4_self ex4_before _ H4).
  - apply Hn.
Defined.

(** C10. The dict [d] is created once, before the loop over the handles: the
    manifest written for the ligand handle, to which no identity key applies,
    carries the [hkl] and [ligand] entries of the interface handle processed
    before it. *)
Theorem ligand_manifest_carries_interface_identity :
  cal_slabs ex10_self = [] ∧ cal_interfaces ex10_self = [2] ∧ cal_ligands ex10_self = [1]
  ∧ (MeasurementInterface_setup ex_new_job ex10_self ex10_world).2 = Return tt
  ∧ add_jobs_for 1 (trace ex10_after) = ["./MeasurementInterface/lig/STATIC"]
  ∧ files ex10_after !! "./MeasurementInterface/int/STATIC/system.json"
    = Some (FJson {[ "hkl" := PList [PInt 1; PInt 0; PInt 0]; "ligand" := PStr "H4N2" ]})
  ∧ files ex10_after !! "./MeasurementInterface/lig/STATIC/system.json"
    = Some (FJson {[ "hkl" := PList [PInt 1; PInt 0; PInt 0]; "ligand" := PStr "H4N2" ]}).
Proof. split_and!; vm_compute; reflexivity. Qed.

(** * Further properties *)

(** ** Invariants of runs *)

Section Obeys.

Context (R : World → World → Prop) `{!PreOrder R}.

Lemma obeys_ret {A} (Q : A → Prop) a : Q a → obeys R Q (ret a).
Proof. intros Ha w w' o H. inversion H; subst. split; [done|]. by intros ? [= <-]. Qed.

Lemma obeys_raise {A} (Q : A → Prop) e : obeys R Q (raise e).
Proof. intros w w' o H. inversion H; subst. split; [done|]. by intros ? [=]. Qed.

Lemma obeys_gets {A} (Q : A → Prop) (f : World → A) : (∀ w, Q (f w)) → obeys R Q (gets f).
Proof. intros Hf w w' o H. inversion H; subst. split; [done|]. by intros ? [= <-]. Qed.

Lemma obeys_skip {A} (a : A) : obeys R any (ret a).
Proof. by apply obeys_ret. Qed.

Lemma obeys_get {A} (f : World → A) : obeys R any (gets f).
Proof. by apply obeys_gets. Qed.

Lemma obeys_modify (f : World → World) : (∀ w, R w (f w)) → obeys R any (modify f).
Proof. intros Hf w w' o H. inversion H; subst. split; [apply Hf|done]. Qed.

Lemma obeys_bind {A B} (P : A → Prop) (Q : B → Prop) (m : M A) (k : A → M B) :
  obeys R P m → (∀ a, P a → obeys R Q (k a)) → obeys R Q (bind m k).
Proof.
  intros Hm Hk w w' o. unfold bind. destruct (m w) as [w1 [a|e]] eqn:Hrun; intros H.
  - destruct (Hm _ _ _ Hrun) as [R1 Ha]. destruct (Hk a (Ha a eq_refl) _ _ _ H) as [R2 Hb].
    split; [by etrans|done].
  - inversion H; subst. destruct (Hm _ _ _ Hrun) as [R1 _]. split; [done|]. by intros ? [=].
Qed.

Lemma obeys_weaken {A} (P Q : A → Prop) (m : M A) :
  (∀ a, P a → Q a) → obeys R P m → obeys R Q m.
Proof. intros HPQ Hm w w' o H. destruct (Hm _ _ _ H) as [Hr Ha]. split; eauto. Qed.

Lemma obeys_for_each {A} (l : list A) (body : A → M unit) :
  (∀ x, x ∈ l → obeys R any (body x)) → obeys R any (for_each l body).
Proof.
  induction l as [|x l IH]; intros Hb; simpl.
  - by apply obeys_ret.
  - apply (obeys_bind any); [apply Hb; by left|]. intros _ _. apply IH.
    intros y Hy. apply Hb. by right.
Qed.

Lemma obeys_for_fold {A S} (I : S → Prop) (l : list A) (body : A → S → M S) :
  (∀ x acc, x ∈ l → I acc → obeys R I (body x acc)) →
  ∀ acc, I acc → obeys R I (for_fold l acc body).
Proof.
  induction l as [|x l IH]; intros Hb acc Hacc; simpl.
  - by apply obeys_ret.
  - apply (obeys_bind I); [apply Hb; [by left|done]|]. intros acc' Hacc'. apply IH; [|done].
    intros y acc'' Hy. apply Hb. by right.
Qed.

Lemma obeys_attr {A} (o : option A) a : obeys R any (attr o a).
Proof. destruct o; [by apply obeys_ret|apply obeys_raise]. Qed.

Lemma obeys_index {A} (l : list A) i : obeys R any (index l i).
Proof. unfold index. destruct (l !! i); [by apply obeys_ret|apply obeys_raise]. Qed.

Lemma obeys_read_attr {A} (f : World → option A) a :
  obeys R any (bind (gets f) (λ o, attr o a)).
Proof. apply (obeys_bind any); [by apply obeys_gets|]. intros o _. apply obeys_attr. Qed.

End Obeys.

(** ** The generic step writes nothing *)

Global Instance registers_only_preorder : PreOrder registers_only.
Proof.
  split.
  - intros w. split; [done|]. exists []. rewrite app_nil_r. split_and!; [done|done|].
    simpl. by rewrite (right_id_L ∅ (∪)).
  - intros w1 w2 w3 (F1 & e1 & T1 & L1 & D1) (F2 & e2 & T2 & L2 & D2).
    split; [congruence|]. exists (e1 ++ e2). split_and!.
    + rewrite T2, T1. by rewrite app_assoc.
    + by apply Forall_app.
    + unfold registered in *. rewrite omap_app, list_to_set_app_L, D2, D1.
      by rewrite (assoc_L (∪)).
Qed.

Lemma registers_only_update cal f w :
  registers_only w (set_store (λ st, <[cal := f (st cal)]> st) w).
Proof.
  split; [done|]. exists []. simpl. rewrite app_nil_r. split_and!; [done|done|].
  by rewrite (right_id_L ∅ (∪)).
Qed.

Lemma registers_only_log lvl fmt args w : registers_only w (emit (EvLog lvl fmt args) w).
Proof.
  split; [done|]. exists [EvLog lvl fmt args]. simpl. split_and!; [done|by repeat constructor|].
  by rewrite (right_id_L ∅ (∪)).
Qed.

Lemma obeys_add_job new_job cal d : obeys registers_only any (add_job new_job cal d).
Proof.
  intros w w' o H. inversion H; subst. split; [|done].
  split; [done|]. exists [EvAddJob cal d]. simpl. split_and!; [done|by repeat constructor|].
  rewrite (right_id_L ∅ (∪)). apply (comm_L (∪)).
Qed.

Lemma obeys_Poscar_from_file p : obeys registers_only any (Poscar_from_file p).
Proof.
  intros w w' o. unfold Poscar_from_file. destruct (files w !! p); intros H; inversion H; subst;
    (split; [reflexivity|done]).
Qed.

Lemma obeys_setup_cal new_job self cal :
  obeys registers_only any (Measurement_setup_cal new_job self cal).
Proof.
  unfold Measurement_setup_cal.
  apply (obeys_bind _ any); [apply obeys_modify, registers_only_update|]. intros _ _.
  apply (obeys_bind _ any); [apply obeys_read_attr; apply _|]. intros ds _.
  apply obeys_for_each; [apply _|]. intros [i jdir] _. unfold Measurement_setup_job. simpl.
  apply (obeys_bind _ any); [apply obeys_read_attr; apply _|]. intros olds _.
  apply (obeys_bind _ any); [apply obeys_index; apply _|]. intros job _.
  apply (obeys_bind _ any); [apply obeys_modify, registers_only_log|]. intros _ _.
  apply (obeys_bind _ any); [apply obeys_modify, registers_only_log|]. intros _ _.
  apply (obeys_bind _ any); [apply obeys_Poscar_from_file|]. intros p _.
  apply (obeys_bind _ any); [apply obeys_modify, registers_only_update|]. intros _ _.
  apply obeys_add_job.
Qed.

(** X1. Whatever its outcome, the generic [setup()] writes and copies no
    file and calls no [makedirs]: its trace holds log lines and [add_job]
    calls only, the files are those it found, and the directories have grown
    by exactly the directories handed to [add_job]. *)
Theorem setup_writes_nothing new_job self w :
  let w' := (Measurement_setup new_job self w).1 in
  files w' = files w
  ∧ ∃ evs, trace w' = trace w ++ evs
           ∧ Forall log_or_add_job evs
           ∧ dirs w' = dirs w ∪ list_to_set (registered evs).
Proof.
  destruct (Measurement_setup new_job self w) as [w' o] eqn:Hrun. simpl.
  assert (Hob : obeys registers_only any (Measurement_setup new_job self)).
  { apply obeys_for_each; [apply _|]. intros c _. apply obeys_setup_cal. }
  by destruct (Hob _ _ _ Hrun) as [? _].
Qed.

(** ** Measuring *)

Lemma get_energy_bound f cal w :
  mod_assimilate w = Some f →
  get_energy cal w = (emits (energy_logs f w cal) w, Return (energies_of f w cal)).
Proof.
  intros Hf. unfold get_energy, bind at 1, gets.
  exact (get_energy_dirs f (job_dir_list (store w cal)) [] w Hf).
Qed.

(** X2. In the module as imported [MPINTVaspDrone] is bound nowhere:
    [get_energy] returns the empty list for a handle without current
    directories and raises [NameError] for every other handle; it leaves the
    world as it found it. *)
Theorem get_energy_as_imported cal w :
  mod_assimilate w = None →
  get_energy cal w
  = (w, if decide (job_dir_list (store w cal) = [])
        then Return [] else Raise (NameError "MPINTVaspDrone")).
Proof.
  intros Hf. destruct (job_dir_list (store w cal)) as [|d ds] eqn:Hds.
  - rewrite decide_True by done. by apply get_energy_no_dirs.
  - rewrite decide_False by done. by eapply get_energy_unbound.
Qed.

Lemma make_measurements_loop_bound f objs : ∀ (acc : list (list Q)) w,
  mod_assimilate w = Some f →
  for_fold objs acc (λ cal energies, es <- get_energy cal ;; ret (energies ++ [es])) w
  = (emits (objs ≫= energy_logs f w) w, Return (acc ++ (energies_of f w <$> objs))).
Proof.
  induction objs as [|c objs IH]; intros acc w Hf; simpl.
  - by rewrite emits_nil, app_nil_r.
  - unfold bind at 1, bind at 1. rewrite (get_energy_bound f) by done. unfold ret at 1.
    rewrite IH by done. rewrite emits_emits, <- app_assoc. done.
Qed.

(** X3. With the output parser bound, the generic [make_measurements]
    returns [None] for every list of handles: the energies it collects are
    dropped, and the world differs only by the debug lines of [get_energy],
    handle by handle in the order of [cal_objs]. *)
Theorem make_measurements_only_logs f self w :
  mod_assimilate w = Some f →
  Measurement_make_measurements self w
  = (emits (cal_objs self ≫= energy_logs f w) w, Return tt).
Proof.
  intros Hf. unfold Measurement_make_measurements, bind at 1.
  by rewrite (make_measurements_loop_bound f).
Qed.

Lemma make_measurements_loop_unbound objs : ∀ (acc : list (list Q)) w,
  mod_assimilate w = None →
  ∃ o, for_fold objs acc (λ cal energies, es <- get_energy cal ;; ret (energies ++ [es])) w
       = (w, o)
       ∧ (Forall (λ c, job_dir_list (store w c) = []) objs → ∃ r, o = Return r)
       ∧ (¬ Forall (λ c, job_dir_list (store w c) = []) objs
          → o = Raise (NameError "MPINTVaspDrone")).
Proof.
  induction objs as [|c objs IH]; intros acc w Hf; simpl.
  - eexists. split; [reflexivity|]. split; [eauto|]. intros H. by destruct H.
  - unfold bind at 1, bind at 1.
    destruct (job_dir_list (store w c)) as [|d ds] eqn:Hc.
    + rewrite get_energy_no_dirs by done. unfold ret at 1. destruct (IH (acc ++ [[]]) w Hf) as (o & Hrun & Hyes & Hno).
      exists o. split; [done|]. split.
      * intros H. apply Hyes. by inversion H.
      * intros H. apply Hno. intros H'. apply H. by constructor.
    + erewrite get_energy_unbound by done. eexists. split; [reflexivity|]. split.
      * intros H. inversion H; subst. congruence.
      * done.
Qed.

(** X4. In the module as imported the generic [make_measurements] returns
    exactly when no handle of [cal_objs] has a current directory; with one
    that has, it raises [NameError].  Either way the world is left as found. *)
Theorem make_measurements_as_imported self w :
  mod_assimilate w = None →
  Measurement_make_measurements self w
  = (w, if decide (Forall (λ c, job_dir_list (store w c) = []) (cal_objs self))
        then Return tt else Raise (NameError "MPINTVaspDrone")).
Proof.
  intros Hf. unfold Measurement_make_measurements, bind at 1.
  destruct (make_measurements_loop_unbound (cal_objs self) [] w Hf) as (o & -> & Hyes & Hno).
  case_decide as H.
  - by destruct (Hyes H) as [r ->].
  - by rewrite (Hno H).
Qed.

(** X5. [MeasurementInterface.make_measurements] never returns when there
    is an interface handle to measure, and never when [E_binding] is unbound,
    as it is in the module as imported: it raises.  When it raises for an
    interface handle, the dict behind [E_binding] is as it was: no binding
    energy is ever stored. *)
Theorem interface_measurement_never_returns self w :
  (cal_interfaces self ≠ [] →
   ∃ w' e, MeasurementInterface_make_measurements self w = (w', Raise e)
           ∧ mod_E_binding w' = mod_E_binding w)
  ∧ (mod_E_binding w = None →
     ∃ w' e, MeasurementInterface_make_measurements self w = (w', Raise e)).
Proof.
  split.
  - intros Hne. exact (make_measurements_fails self Hne w).
  - apply make_measurements_unbound.
Qed.

(** ** Construction, with [cal] bound *)

(** One turn of the loop of [__init__], with [cal] bound to [c]. *)
Lemma init_loop_step c obj rest w :
  mod_cal w = Some c →
  ∃ w1,
    Measurement_init_loop (obj :: rest) w = Measurement_init_loop rest w1
    ∧ mod_cal w1 = Some c
    ∧ files w1 = files w ∧ dirs w1 = dirs w ∧ trace w1 = trace w
    ∧ (∀ r, r ≠ obj → store w1 r = store w r)
    ∧ old_jobs (store w1 obj) = Some (jobs (store w obj))
    ∧ jobs (store w1 obj) = []
    ∧ old_job_dir_list (store w1 obj) = Some (job_dir_list (store w c))
    ∧ job_dir_list (store w1 obj) = [].
Proof.
  intros Hcal. eexists. split.
  - unfold Measurement_init_loop. simpl.
    unfold bind, update, modify, gets. simpl. rewrite Hcal. reflexivity.
  - simpl. rewrite !store_update_eq. simpl. split_and!; try done.
    + intros r Hr. rewrite !(store_update r), !decide_False by done. done.
    + f_equal. rewrite !store_update. by repeat case_decide; subst.
Qed.

Lemma init_loop_spec c objs : ∀ w,
  mod_cal w = Some c → NoDup objs →
  ∃ w',
    Measurement_init_loop objs w = (w', Return tt)
    ∧ mod_cal w' = Some c
    ∧ files w' = files w ∧ dirs w' = dirs w ∧ trace w' = trace w
    ∧ (∀ r, r ∉ objs → store w' r = store w r)
    ∧ ∀ i obj, objs !! i = Some obj →
        old_jobs (store w' obj) = Some (jobs (store w obj))
        ∧ jobs (store w' obj) = []
        ∧ job_dir_list (store w' obj) = []
        ∧ old_job_dir_list (store w' obj)
          = Some (if bool_decide (c ∈ take i objs) then [] else job_dir_list (store w c)).
Proof.
  induction objs as [|o rest IH]; intros w Hcal Hnd.
  - exists w. split_and!; try done.
  - apply list.NoDup_cons in Hnd as [Hnin Hnd].
    destruct (init_loop_step c o rest w Hcal)
      as (w1 & Hrun & Hcal1 & F1 & D1 & T1 & Hframe1 & Hoj & Hj & Hod & Hd).
    destruct (IH w1 Hcal1 Hnd) as (w' & Hrun' & Hcal' & F' & D' & T' & Hframe' & Hall).
    exists w'. split_and!; try congruence.
    + intros r [Hne Hr]%not_elem_of_cons. rewrite Hframe' by done. by apply Hframe1.
    + intros [|i] obj Hobj; simpl in Hobj.
      * inversion Hobj; subst obj. rewrite Hframe' by done.
        rewrite bool_decide_eq_false_2 by (simpl; by intros ?%elem_of_nil). done.
      * assert (Hne : obj ≠ o).
        { intros ->. apply Hnin. apply list_elem_of_lookup. eauto. }
        destruct (Hall i obj Hobj) as (-> & -> & -> & ->).
        rewrite (Hframe1 obj) by done. split_and!; try done. f_equal. simpl.
        destruct (decide (c = o)) as [->|Hco].
        -- rewrite (bool_decide_eq_true_2 (o ∈ o :: take i rest)) by (by left).
           rewrite Hd. by case_bool_decide.
        -- rewrite (Hframe1 c) by done.
           destruct (decide (c ∈ take i rest)) as [Hin|Hin].
           ++ rewrite !bool_decide_eq_true_2; [done|by right|done].
           ++ rewrite !bool_decide_eq_false_2; [done| |done].
              intros [?|?]%elem_of_cons; done.
Qed.


(** X7. Constructing a step twice in a row over the same handles, with no
    [setup()] in between, loses the prior generation: after the second
    construction every handle has an empty list of archived jobs, and, when
    the object bound to [cal] is among the handles, an empty list of archived
    directories. *)
Theorem init_twice_loses_the_archive c objs jd jd' w :
  mod_cal w = Some c → NoDup objs → c ∈ objs →
  ∃ w',
    (Measurement_init objs jd ;; Measurement_init objs jd') w
    = (w', Return {| cal_objs := objs; job_dir := jd' |})
    ∧ ∀ obj, obj ∈ objs →
        old_jobs (store w' obj) = Some []
        ∧ old_job_dir_list (store w' obj) = Some []
        ∧ jobs (store w' obj) = []
        ∧ job_dir_list (store w' obj) = [].
Proof.
  intros Hcal Hnd Hc.
  destruct (init_loop_spec c objs w Hcal Hnd) as (w1 & Hrun1 & Hcal1 & _ & _ & _ & _ & Hall1).
  destruct (init_loop_spec c objs w1 Hcal1 Hnd) as (w2 & Hrun2 & _ & _ & _ & _ & _ & Hall2).
  exists w2. split.
  - unfold Measurement_init, bind, ret. rewrite Hrun1. cbv beta iota. by rewrite Hrun2.
  - intros obj [i Hi]%list_elem_of_lookup.
    destruct (Hall2 i obj Hi) as (-> & -> & -> & ->).
    destruct (Hall1 i obj Hi) as (_ & -> & _ & _).
    apply list_elem_of_lookup in Hc as [k Hk].
    destruct (Hall1 k c Hk) as (_ & _ & -> & _).
    split_and!; try done. by case_bool_decide.
Qed.

(** ** The buckets of the interface step *)

Global Instance keeps_kinds_preorder : PreOrder keeps_kinds.
Proof.
  split.
  - by intros w r.
  - intros w1 w2 w3 H1 H2 r. by rewrite H2, H1.
Qed.

Lemma obeys_update_kinds cal f :
  (∀ c, kind (f c) = kind c) → obeys keeps_kinds any (update cal f).
Proof.
  intros Hf w w' o H. inversion H; subst. split; [|done].
  intros r. simpl. rewrite store_update. case_decide; subst; auto.
Qed.

Lemma obeys_init_loop objs : obeys keeps_kinds any (Measurement_init_loop objs).
Proof.
  apply obeys_for_each; [apply _|]. intros obj _.
  apply (obeys_bind _ any); [by apply obeys_update_kinds|]. intros _ _.
  apply (obeys_bind _ any); [by apply obeys_update_kinds|]. intros _ _.
  apply (obeys_bind _ any); [apply obeys_get; apply _|]. intros g _.
  apply (obeys_bind _ any).
  { destruct g; [apply obeys_skip|apply obeys_raise]; apply _. }
  intros cal _.
  apply (obeys_bind _ any); [apply obeys_get; apply _|]. intros l _.
  apply (obeys_bind _ any); [by apply obeys_update_kinds|]. intros _ _.
  by apply obeys_update_kinds.
Qed.

Lemma has_kind_true k c : has_kind k c = true ↔ kind c = k.
Proof. unfold has_kind. destruct k, (kind c); split; congruence. Qed.

(** X8. When the construction of an interface step returns, its three
    buckets are the handles of [cal_objs] of class [CalibrateSlab],
    [CalibrateInterface] and [CalibrateMolecule], each in the order of
    [cal_objs]; no handle is in two buckets, and a handle of another class is
    in none. *)
Theorem interface_init_buckets objs jd w w' self :
  MeasurementInterface_init objs jd w = (w', Return self) →
  cal_objs (int_base self) = objs
  ∧ (∀ r, r ∈ cal_slabs self ↔ r ∈ objs ∧ kind (store w r) = CalibrateSlab)
  ∧ (∀ r, r ∈ cal_interfaces self ↔ r ∈ objs ∧ kind (store w r) = CalibrateInterface)
  ∧ (∀ r, r ∈ cal_ligands self ↔ r ∈ objs ∧ kind (store w r) = CalibrateMolecule)
  ∧ cal_slabs self `sublist_of` objs
  ∧ cal_interfaces self `sublist_of` objs
  ∧ cal_ligands self `sublist_of` objs
  ∧ (∀ r, ¬ (r ∈ cal_slabs self ∧ r ∈ cal_interfaces self)
          ∧ ¬ (r ∈ cal_slabs self ∧ r ∈ cal_ligands self)
          ∧ ¬ (r ∈ cal_interfaces self ∧ r ∈ cal_ligands self))
  ∧ (∀ r, kind (store w r) = CalibrateOther →
          (r ∉ cal_slabs self) ∧ (r ∉ cal_interfaces self) ∧ (r ∉ cal_ligands self)).
Proof.
  unfold MeasurementInterface_init, Measurement_init.
  intros (w1 & base & Hbase & H)%bind_Return.
  apply bind_Return in Hbase as (w0 & [] & Hloop & Hret). inversion Hret; subst w1 base.
  apply bind_Return in H as (w1 & st & Hst & Hret'). inversion Hst; subst w1 st.
  inversion Hret'; subst w' self.
  cbn [cal_slabs cal_interfaces cal_ligands int_base cal_objs].
  destruct (obeys_init_loop objs _ _ _ Hloop) as [Hk _].
  assert (Hmem : ∀ k r, r ∈ filter (λ r, has_kind k (store w0 r)) objs
                        ↔ r ∈ objs ∧ kind (store w r) = k).
  { intros k r. rewrite list_elem_of_filter, Is_true_true, has_kind_true, Hk. tauto. }
  split_and!.
  - done.
  - intros r. apply (Hmem CalibrateSlab).
  - intros r. apply (Hmem CalibrateInterface).
  - intros r. apply (Hmem CalibrateMolecule).
  - apply sublist_filter.
  - apply sublist_filter.
  - apply sublist_filter.
  - intros r. split_and!.
    + intros [[_ H1]%(Hmem CalibrateSlab r) [_ H2]%(Hmem CalibrateInterface r)]. congruence.
    + intros [[_ H1]%(Hmem CalibrateSlab r) [_ H2]%(Hmem CalibrateMolecule r)]. congruence.
    + intros [[_ H1]%(Hmem CalibrateInterface r) [_ H2]%(Hmem CalibrateMolecule r)]. congruence.
  - intros r Hr. split_and!.
    + intros [_ H1]%(Hmem CalibrateSlab r). congruence.
    + intros [_ H1]%(Hmem CalibrateInterface r). congruence.
    + intros [_ H1]%(Hmem CalibrateMolecule r). congruence.
Qed.

(** ** The solvation step, statement by statement *)

Lemma append_cons c s t : String c s +:+ t = String c (s +:+ t).
Proof. reflexivity. Qed.

Lemma append_length s t : String.length (s +:+ t) = String.length s + String.length t.
Proof. induction s as [|c s IH]; [done|]. rewrite append_cons. simpl. by rewrite IH. Qed.

Lemma append_ne_self s t : t ≠ "" → s +:+ t ≠ s.
Proof.
  intros Ht Heq. apply (f_equal String.length) in Heq. rewrite append_length in Heq.
  destruct t; [done|]. simpl in Heq. lia.
Qed.

Lemma last_char_append s t : t ≠ "" → last_char (s +:+ t) = last_char t.
Proof.
  intros Ht. induction s as [|c s IH]; [done|]. rewrite append_cons. simpl.
  destruct (s +:+ t) eqn:Hst; [|done].
  destruct s; [done|]. rewrite append_cons in Hst. discriminate.
Qed.

Lemma wavecar_ne_manifest d jd : wavecar d ≠ manifest jd.
Proof.
  intros Heq. apply (f_equal last_char) in Heq. unfold wavecar, manifest in Heq.
  rewrite !last_char_append in Heq by done. discriminate.
Qed.

Lemma manifest_ne_dir jd : manifest jd ≠ jd.
Proof. by apply append_ne_self. Qed.

Lemma incar_only_refl w : incar_only w w.
Proof. by split_and!. Qed.

Lemma incar_only_trans w1 w2 w3 : incar_only w1 w2 → incar_only w2 w3 → incar_only w1 w3.
Proof.
  intros (F1 & D1 & T1 & H1) (F2 & D2 & T2 & H2). split_and!; try congruence.
  intros r. destruct (H1 r) as (?&?&?&?), (H2 r) as (?&?&?&?). split_and!; congruence.
Qed.

Lemma incar_only_update cal k v w :
  incar_only w (set_store (λ st, <[cal := with_incar k v (st cal)]> st) w).
Proof.
  split_and!; try done. intros r. simpl. rewrite store_update. by case_decide; subst.
Qed.

(** The loop over the keys goes through when every key has two characters. *)
Lemma unpack_loop_returns cal keys : ∀ w,
  Forall (λ k, String.length k = 2) keys →
  ∃ w', for_each keys (λ key, kv <- unpack_pair key ;; update cal (with_incar kv.1 (PStr kv.2))) w
        = (w', Return tt)
        ∧ incar_only w w'.
Proof.
  induction keys as [|k keys IH]; intros w Hk.
  - exists w. split; [done|apply incar_only_refl].
  - apply list.Forall_cons in Hk as [Hk Hks].
    destruct k as [|a [|b [|c s]]]; simpl in Hk; try done.
    set (w1 := set_store (λ st, <[cal := with_incar (String a "") (PStr (String b "")) (st cal)]> st) w).
    destruct (IH w1 Hks) as (w' & Hrun & Hio).
    exists w'. split.
    + simpl. unfold bind at 1, bind at 1. simpl. exact Hrun.
    + eapply incar_only_trans; [apply incar_only_update|exact Hio].
Qed.

(** ... and only then. *)
Lemma unpack_loop_Return cal keys : ∀ w w',
  for_each keys (λ key, kv <- unpack_pair key ;; update cal (with_incar kv.1 (PStr kv.2))) w
  = (w', Return tt) →
  Forall (λ k, String.length k = 2) keys.
Proof.
  induction keys as [|k keys IH]; intros w w' H; [constructor|].
  simpl in H. apply bind_Return in H as (w1 & [] & Hk & H).
  apply bind_Return in Hk as (w0 & kv & Hk & _).
  constructor; [|by eapply IH].
  destruct k as [|a [|b [|c s]]]; simpl in Hk; by inversion Hk.
Qed.

Section SolvationStatements.

Variable new_job : path → Job.
Variable self : MeasurementSolvation.

(** The head of the loop body up to the loop over the keys. *)
Lemma solvation_head cal w j0 js :
  old_jobs (store w cal) = Some (j0 :: js) →
  Forall (λ k, String.length k = 2) (sol_params self).*1 →
  ∃ w2,
    MeasurementSolvation_setup_cal new_job self cal w
    = solvation_tail new_job cal (sol_dir self j0) (sol_params self) w2
    ∧ incar_only w w2.
Proof.
  intros Hold Hkeys.
  set (w1 := set_store (λ st, <[cal := with_incar "LSOL" (PStr ".TRUE.") (st cal)]> st) w).
  assert (H1 : incar_only w w1) by apply incar_only_update.
  destruct (unpack_loop_returns cal (sol_params self).*1 w1 Hkeys) as (w2 & Hloop & H2).
  exists w2. split; [|by eapply incar_only_trans].
  unfold MeasurementSolvation_setup_cal.
  unfold bind at 1, update at 1, modify at 1. fold w1. cbv beta iota.
  unfold bind at 1, bind at 1, gets at 1, attr at 1.
  destruct H1 as (_ & _ & _ & H1). destruct (H1 cal) as (-> & _). rewrite Hold.
  unfold ret at 1. cbv beta iota.
  unfold bind at 1, index at 1. change ((j0 :: js) !! 0) with (Some j0).
  unfold ret at 1. cbv beta iota.
  unfold bind at 1. rewrite Hloop. reflexivity.
Qed.

End SolvationStatements.

(** What single statements do. *)
Lemma bind_run {A B} (m : M A) (k : A → M B) w w' a :
  m w = (w', Return a) → bind m k w = k a w'.
Proof. intros H. unfold bind. by rewrite H. Qed.

Lemma bind_run_raise {A B} (m : M A) (k : A → M B) w w' e :
  m w = (w', Raise e) → bind m k w = (w', Raise e).
Proof. intros H. unfold bind. by rewrite H. Qed.

Lemma read_attr_run {A} (f : World → option A) a w x :
  f w = Some x → bind (gets f) (λ o, attr o a) w = (w, Return x).
Proof. intros H. unfold bind, gets, attr. by rewrite H. Qed.

Lemma index_run {A} (l : list A) i w x : l !! i = Some x → index l i w = (w, Return x).
Proof. intros H. unfold index. by rewrite H. Qed.

Lemma json_dump_run jd content w :
  jd ∈ dirs w → manifest jd ∉ dirs w →
  json_dump jd "system.json" content w
  = (emit (EvWrite (manifest jd) (FJson content))
       (set_files (<[manifest jd := FJson content]> (files w)) w), Return tt).
Proof.
  intros Hin Hnin. unfold json_dump, bind, write_file. fold (manifest jd).
  by rewrite (bool_decide_eq_true_2 _ Hin), (bool_decide_eq_false_2 _ Hnin).
Qed.

Lemma copy_run src d f c w :
  files w !! src = Some c → d ∈ dirs w → (d +:+ sep +:+ f) ∉ dirs w →
  copy src d f w
  = (emit (EvCopy src (d +:+ sep +:+ f))
       (set_files (<[d +:+ sep +:+ f := c]> (files w)) w), Return tt).
Proof.
  intros Hsrc Hin Hnin. unfold copy. rewrite Hsrc. unfold bind, write_file.
  by rewrite (bool_decide_eq_true_2 _ Hin), (bool_decide_eq_false_2 _ Hnin).
Qed.

Lemma copy_missing src d f w :
  files w !! src = None → copy src d f w = (w, Raise (IOError src)).
Proof. intros Hsrc. unfold copy. by rewrite Hsrc. Qed.

(** [if not os.path.exists(jd): os.makedirs(jd)], for a [jd] that is not a
    file. *)
Lemma prepare_dir {B} jd (k : unit → M B) w :
  files w !! jd = None ∨ jd ∈ dirs w →
  ∃ w1,
    (ex <- path_exists jd ;; (if negb ex then makedirs jd else ret tt) ;; k tt) w = k tt w1
    ∧ files w1 = files w
    ∧ dirs w1 = {[jd]} ∪ dirs w
    ∧ trace w1 = trace w ++ (if decide (jd ∈ dirs w) then [] else [EvMakedirs jd])
    ∧ store w1 = store w.
Proof.
  intros Hjd. unfold bind at 1, path_exists, gets.
  destruct (decide (jd ∈ dirs w)) as [Hin|Hnin].
  - exists w. rewrite (bool_decide_eq_true_2 _ Hin). simpl. split_and!; try done.
    + apply set_eq. intros x.
      rewrite elem_of_union, elem_of_singleton. split; [auto|]. by intros [->|?].
    + by rewrite app_nil_r.
  - destruct Hjd as [Hfile|?]; [|done].
    eexists. rewrite (bool_decide_eq_false_2 _ Hnin), Hfile.
    rewrite bool_decide_eq_false_2 by (by intros [? ?]). simpl.
    split; [reflexivity|]. by simpl.
Qed.

Section SolvationRuns.

Variable new_job : path → Job.

(** The statements from [os.path.exists] on, from a world where the job
    directory is not a plain file and neither target is a directory. *)
Lemma solvation_tail_run cal jd params d0 ds w :
  files w !! jd = None ∨ jd ∈ dirs w →
  manifest jd ∉ dirs w →
  (jd +:+ sep +:+ "WAVECAR") ∉ dirs w →
  old_job_dir_list (store w cal) = Some (d0 :: ds) →
  let made := if decide (jd ∈ dirs w) then [] else [EvMakedirs jd] in
  let dumped := EvWrite (manifest jd) (FJson (list_to_map params)) in
  let fs := <[manifest jd := FJson (list_to_map params)]> (files w) in
  ∃ w',
    dirs w' = {[jd]} ∪ dirs w
    ∧ match files w !! wavecar d0 with
      | None =>
          solvation_tail new_job cal jd params w = (w', Raise (IOError (wavecar d0)))
          ∧ files w' = fs
          ∧ trace w' = trace w ++ made ++ [dumped]
          ∧ store w' = store w
      | Some c =>
          solvation_tail new_job cal jd params w = (w', Return tt)
          ∧ files w' = <[jd +:+ sep +:+ "WAVECAR" := c]> fs
          ∧ trace w' = trace w ++ made
                       ++ [dumped; EvCopy (wavecar d0) (jd +:+ sep +:+ "WAVECAR");
                           EvAddJob cal jd]
          ∧ job_dir_list (store w' cal) = job_dir_list (store w cal) ++ [jd]
          ∧ jobs (store w' cal) = jobs (store w cal) ++ [new_job jd]
      end.
Proof.
  intros Hjd Hman Hwav Hds made dumped fs. unfold solvation_tail.
  destruct (prepare_dir jd
              (λ _, json_dump jd "system.json" (list_to_map params) ;;
                    ds <- bind (gets (λ w, old_job_dir_list (store w cal)))
                            (λ o, attr o "old_job_dir_list") ;;
                    d0 <- index ds 0 ;;
                    copy (wavecar d0) jd "WAVECAR" ;;
                    add_job new_job cal jd) w Hjd)
    as (w1 & Hrun & F1 & D1 & T1 & S1).
  rewrite Hrun. clear Hrun. cbv beta.
  assert (Hin1 : jd ∈ dirs w1) by (rewrite D1; apply elem_of_union_l; by apply elem_of_singleton).
  assert (Hman1 : manifest jd ∉ dirs w1).
  { rewrite D1. intros [?%elem_of_singleton|?]%elem_of_union; [|done].
    by eapply manifest_ne_dir. }
  assert (Hwav1 : (jd +:+ sep +:+ "WAVECAR") ∉ dirs w1).
  { rewrite D1. intros [?%elem_of_singleton|?]%elem_of_union; [|done].
    by eapply (append_ne_self jd (sep +:+ "WAVECAR")). }
  erewrite bind_run by (by apply json_dump_run).
  erewrite bind_run by (apply read_attr_run; simpl; rewrite S1; exact Hds).
  erewrite bind_run by (by apply index_run).
  cbv zeta.
  destruct (files w !! wavecar d0) as [c|] eqn:Hsrc.
  - erewrite bind_run.
    2:{ apply copy_run; simpl; [|done|done].
        rewrite lookup_insert_ne by (apply not_eq_sym, wavecar_ne_manifest).
        rewrite F1. exact Hsrc. }
    eexists. split; [|split; [reflexivity|]].
    + simpl. rewrite D1. apply set_eq. intros x.
      rewrite !elem_of_union, elem_of_singleton. tauto.
    + simpl. rewrite store_update_eq, S1, F1, T1. simpl.
      split_and!; try done. by rewrite <- !app_assoc.
  - erewrite bind_run_raise.
    2:{ apply copy_missing. simpl.
        rewrite lookup_insert_ne by (apply not_eq_sym, wavecar_ne_manifest).
        rewrite F1. exact Hsrc. }
    eexists. split; [|split; [reflexivity|]].
    + simpl. exact D1.
    + simpl. rewrite F1, T1, S1. split_and!; try done. by rewrite <- !app_assoc.
Qed.

End SolvationRuns.

Section SolvationEdges.

Variable new_job : path → Job.
Variable self : MeasurementSolvation.

(** X9. The solvation [setup()] can only return, over a non-empty list of
    handles, when every key of [sol_params] has exactly two characters: the
    loop header unpacks each key into [k] and [v]. *)
Theorem solvation_returns_only_with_two_character_keys w w' :
  cal_objs (sol_base self) ≠ [] →
  MeasurementSolvation_setup new_job self w = (w', Return tt) →
  Forall (λ k, String.length k = 2) (sol_params self).*1.
Proof.
  unfold MeasurementSolvation_setup. intros Hne H.
  destruct (cal_objs (sol_base self)) as [|c rest]; [done|].
  simpl in H. apply bind_Return in H as (w1 & [] & H & _).
  unfold MeasurementSolvation_setup_cal in H.
  apply bind_Return in H as (w2 & [] & _ & H).
  apply bind_Return in H as (w3 & olds & _ & H).
  apply bind_Return in H as (w4 & job & _ & H).
  apply bind_Return in H as (w5 & [] & H & _).
  by eapply unpack_loop_Return.
Qed.

(** X10. A first handle that has no prior job makes the solvation [setup()]
    raise [IndexError]; by then it has set [LSOL] on that handle and done
    nothing else: no directory, no file, no log line, no job. *)
Theorem solvation_without_prior_job w cal rest :
  cal_objs (sol_base self) = cal :: rest →
  old_jobs (store w cal) = Some [] →
  ∃ w',
    MeasurementSolvation_setup new_job self w = (w', Raise IndexError)
    ∧ incar (store w' cal) = <["LSOL" := PStr ".TRUE."]> (incar (store w cal))
    ∧ files w' = files w ∧ dirs w' = dirs w ∧ trace w' = trace w
    ∧ jobs (store w' cal) = jobs (store w cal)
    ∧ job_dir_list (store w' cal) = job_dir_list (store w cal).
Proof.
  intros Hobjs Hold. eexists. split.
  - unfold MeasurementSolvation_setup, MeasurementSolvation_setup_cal. rewrite Hobjs. simpl.
    unfold bind, update, modify, gets, attr. simpl.
    rewrite store_update_eq. simpl. rewrite Hold. reflexivity.
  - simpl. by rewrite store_update_eq.
Qed.

(** X11. When the first prior directory of the first handle holds no
    [WAVECAR], the solvation [setup()] raises the [IOError] of [shutil.copy],
    which carries the path of the missing file.  This comes late: the job
    directory exists by then and holds the manifest of the solvation
    parameters, while no job has been registered. *)
Theorem solvation_missing_wavecar w cal rest j0 js d0 ds :
  cal_objs (sol_base self) = cal :: rest →
  old_jobs (store w cal) = Some (j0 :: js) →
  old_job_dir_list (store w cal) = Some (d0 :: ds) →
  Forall (λ k, String.length k = 2) (sol_params self).*1 →
  files w !! sol_dir self j0 = None ∨ sol_dir self j0 ∈ dirs w →
  manifest (sol_dir self j0) ∉ dirs w →
  (sol_dir self j0 +:+ sep +:+ "WAVECAR") ∉ dirs w →
  files w !! wavecar d0 = None →
  ∃ w',
    MeasurementSolvation_setup new_job self w = (w', Raise (IOError (wavecar d0)))
    ∧ sol_dir self j0 ∈ dirs w'
    ∧ files w' = <[manifest (sol_dir self j0) := FJson (list_to_map (sol_params self))]> (files w)
    ∧ trace w' = trace w
                 ++ (if decide (sol_dir self j0 ∈ dirs w) then [] else [EvMakedirs (sol_dir self j0)])
                 ++ [EvWrite (manifest (sol_dir self j0)) (FJson (list_to_map (sol_params self)))]
    ∧ jobs (store w' cal) = jobs (store w cal)
    ∧ job_dir_list (store w' cal) = job_dir_list (store w cal).
Proof.
  intros Hobjs Hold Hds Hkeys Hjd Hman Hwav Hsrc.
  destruct (solvation_head new_job self cal w j0 js Hold Hkeys)
    as (w2 & Hhead & F2 & D2 & T2 & H2).
  destruct (H2 cal) as (_ & Hds2 & Hj2 & Hd2).
  destruct (solvation_tail_run new_job cal (sol_dir self j0) (sol_params self) d0 ds w2)
    as (w' & D' & Htail); rewrite ?F2, ?D2, ?Hds2; try done.
  rewrite F2, Hsrc, D2 in Htail. destruct Htail as (Hrun & F' & T' & S').
  exists w'. split_and!.
  - unfold MeasurementSolvation_setup. rewrite Hobjs. simpl.
    apply bind_run_raise. by rewrite Hhead.
  - rewrite D'. apply elem_of_union_l. by apply elem_of_singleton.
  - by rewrite F'.
  - by rewrite T', T2.
  - by rewrite S'.
  - by rewrite S'.
Qed.

(** X12. Over a single handle whose first prior directory holds a
    [WAVECAR], with keys of two characters (or none) in [sol_params], and
    with a job directory that is not in the way, the solvation [setup()]
    returns, and it has done exactly this, in this order: created the job
    directory unless it was there, written the manifest of [sol_params],
    copied [WAVECAR] from the first prior directory, and registered the job
    directory with the handle. *)
Theorem solvation_single_handle w cal j0 js d0 ds c :
  cal_objs (sol_base self) = [cal] →
  old_jobs (store w cal) = Some (j0 :: js) →
  old_job_dir_list (store w cal) = Some (d0 :: ds) →
  Forall (λ k, String.length k = 2) (sol_params self).*1 →
  files w !! sol_dir self j0 = None ∨ sol_dir self j0 ∈ dirs w →
  manifest (sol_dir self j0) ∉ dirs w →
  (sol_dir self j0 +:+ sep +:+ "WAVECAR") ∉ dirs w →
  files w !! wavecar d0 = Some c →
  ∃ w',
    MeasurementSolvation_setup new_job self w = (w', Return tt)
    ∧ dirs w' = {[sol_dir self j0]} ∪ dirs w
    ∧ files w' = <[sol_dir self j0 +:+ sep +:+ "WAVECAR" := c]>
                   (<[manifest (sol_dir self j0) := FJson (list_to_map (sol_params self))]>
                      (files w))
    ∧ trace w' = trace w
                 ++ (if decide (sol_dir self j0 ∈ dirs w) then [] else [EvMakedirs (sol_dir self j0)])
                 ++ [EvWrite (manifest (sol_dir self j0)) (FJson (list_to_map (sol_params self)));
                     EvCopy (wavecar d0) (sol_dir self j0 +:+ sep +:+ "WAVECAR");
                     EvAddJob cal (sol_dir self j0)]
    ∧ job_dir_list (store w' cal) = job_dir_list (store w cal) ++ [sol_dir self j0].
Proof.
  intros Hobjs Hold Hds Hkeys Hjd Hman Hwav Hsrc.
  destruct (solvation_head new_job self cal w j0 js Hold Hkeys)
    as (w2 & Hhead & F2 & D2 & T2 & H2).
  destruct (H2 cal) as (_ & Hds2 & Hj2 & Hd2).
  destruct (solvation_tail_run new_job cal (sol_dir self j0) (sol_params self) d0 ds w2)
    as (w' & D' & Htail); rewrite ?F2, ?D2, ?Hds2; try done.
  rewrite F2, Hsrc, D2 in Htail. destruct Htail as (Hrun & F' & T' & Hd' & _).
  exists w'. split_and!.
  - unfold MeasurementSolvation_setup. rewrite Hobjs. simpl.
    erewrite bind_run by (rewrite Hhead; exact Hrun). done.
  - by rewrite D', D2.
  - by rewrite F'.
  - by rewrite T', T2.
  - by rewrite Hd', Hd2.
Qed.

End SolvationEdges.

(** ** The interface step *)






Section InterfaceSetup.

Variable new_job : path → Job.
Variable self : MeasurementInterface.






End InterfaceSetup.

(** ** What the interface step writes *)

(** The shape of a [try] block that assigns on success and logs otherwise. *)
Lemma obeys_try {A B} R `{!PreOrder R} (Q : B → Prop) (m : M A) (f : A → B) (h : M B) :
  obeys R any m → (∀ a, Q (f a)) → obeys R Q h →
  obeys R Q (λ w, match m w with
                  | (w', Return a) => (w', Return (f a))
                  | (w', Raise _) => h w'
                  end).
Proof.
  intros Hm Hf Hh w w' o. destruct (m w) as [w1 [a|e]] eqn:Hrun; intros H.
  - inversion H; subst. destruct (Hm _ _ _ Hrun) as [HR _]. split; [done|].
    by intros ? [= <-].
  - destruct (Hm _ _ _ Hrun) as [HR _]. destruct (Hh _ _ _ H) as [HR' HQ].
    split; [by etrans|done].
Qed.

Lemma obeys_read_miller_index R `{!PreOrder R} cal : obeys R any (read_miller_index cal).
Proof.
  apply (obeys_bind _ any); [by apply obeys_read_attr|]. intros sys _. by apply obeys_attr.
Qed.

Lemma obeys_read_formula R `{!PreOrder R} cal : obeys R any (read_formula cal).
Proof.
  apply (obeys_bind _ any); [by apply obeys_read_attr|]. intros sys _. by apply obeys_attr.
Qed.

(** The primitive statements under a relation that ignores the store and
    the directories and lets the events in [P] through. *)
Section Statements.

Context (R : World → World → Prop) `{!PreOrder R} (P : event → Prop).
Hypothesis R_store : ∀ f w, R w (set_store f w).
Hypothesis R_dirs : ∀ ds w, R w (set_dirs ds w).
Hypothesis R_emit : ∀ e w, P e → R w (emit e w).

Lemma obeys_update cal f : obeys R any (update cal f).
Proof. apply obeys_modify. intros w. apply R_store. Qed.

Lemma obeys_log lvl fmt args : P (EvLog lvl fmt args) → obeys R any (log lvl fmt args).
Proof. intros HP. apply obeys_modify. intros w. by apply R_emit. Qed.

Lemma obeys_makedirs p : P (EvMakedirs p) → obeys R any (makedirs p).
Proof.
  intros HP. apply obeys_modify. intros w. etrans; [apply R_dirs|by apply R_emit].
Qed.

Lemma obeys_register new_job cal d : P (EvAddJob cal d) → obeys R any (add_job new_job cal d).
Proof.
  intros HP. unfold add_job.
  apply (obeys_bind _ any); [apply obeys_update|]. intros _ _.
  apply (obeys_bind _ any); [apply obeys_modify; intros w; apply R_dirs|]. intros _ _.
  apply obeys_modify. intros w. by apply R_emit.
Qed.

Lemma obeys_from_file p : obeys R any (Poscar_from_file p).
Proof.
  intros w w' o. unfold Poscar_from_file. destruct (files w !! p); intros H; inversion H; subst;
    (split; [reflexivity|done]).
Qed.

End Statements.

Global Instance writes_nothing_preorder : PreOrder writes_nothing.
Proof.
  split.
  - intros w. split; [done|]. exists []. by rewrite app_nil_r.
  - intros w1 w2 w3 (F1 & e1 & T1 & L1) (F2 & e2 & T2 & L2).
    split; [congruence|]. exists (e1 ++ e2). split.
    + rewrite T2, T1. by rewrite app_assoc.
    + by apply Forall_app.
Qed.

Lemma writes_nothing_emit e w : not_write e → writes_nothing w (emit e w).
Proof. intros He. split; [done|]. exists [e]. split; [done|by repeat constructor]. Qed.

Lemma writes_nothing_store f w : writes_nothing w (set_store f w).
Proof. split; [done|]. exists []. by rewrite app_nil_r. Qed.

Lemma writes_nothing_dirs ds w : writes_nothing w (set_dirs ds w).
Proof. split; [done|]. exists []. by rewrite app_nil_r. Qed.

Lemma writes_nothing_update cal f : obeys writes_nothing any (update cal f).
Proof. apply obeys_update, writes_nothing_store. Qed.

Lemma writes_nothing_makedirs p : obeys writes_nothing any (makedirs p).
Proof.
  apply (obeys_makedirs _ not_write);
    [apply writes_nothing_dirs|apply writes_nothing_emit|done].
Qed.

Lemma writes_nothing_register new_job cal d : obeys writes_nothing any (add_job new_job cal d).
Proof.
  apply (obeys_register _ not_write);
    [apply writes_nothing_store|apply writes_nothing_dirs|apply writes_nothing_emit|done].
Qed.

Global Instance writes_manifests_preorder : PreOrder writes_manifests.
Proof.
  split.
  - intros w. split; [auto|]. exists []. by rewrite app_nil_r.
  - intros w1 w2 w3 (F1 & e1 & T1 & L1) (F2 & e2 & T2 & L2). split.
    + intros p f [H|H]%F2; [auto|by right].
    + exists (e1 ++ e2). split; [rewrite T2, T1; by rewrite app_assoc|by apply Forall_app].
Qed.

Lemma writes_manifests_emit e w : manifest_event e → writes_manifests w (emit e w).
Proof. intros He. split; [auto|]. exists [e]. split; [done|by repeat constructor]. Qed.

Lemma writes_manifests_store f w : writes_manifests w (set_store f w).
Proof. split; [auto|]. exists []. by rewrite app_nil_r. Qed.

Lemma writes_manifests_dirs ds w : writes_manifests w (set_dirs ds w).
Proof. split; [auto|]. exists []. by rewrite app_nil_r. Qed.

Lemma writes_manifests_update cal f : obeys writes_manifests any (update cal f).
Proof. apply obeys_update, writes_manifests_store. Qed.

Lemma writes_manifests_log lvl fmt args : obeys writes_manifests any (log lvl fmt args).
Proof.
  apply (obeys_log _ manifest_event); [apply writes_manifests_emit|done].
Qed.

Lemma writes_manifests_makedirs p : obeys writes_manifests any (makedirs p).
Proof.
  apply (obeys_makedirs _ manifest_event);
    [apply writes_manifests_dirs|apply writes_manifests_emit|done].
Qed.

Lemma writes_manifests_register new_job cal d :
  obeys writes_manifests any (add_job new_job cal d).
Proof.
  apply (obeys_register _ manifest_event);
    [apply writes_manifests_store|apply writes_manifests_dirs
    |apply writes_manifests_emit|done].
Qed.

Lemma identity_dict_empty : identity_dict ∅.
Proof. intros k v. by rewrite lookup_empty. Qed.

Lemma identity_dict_hkl d (hkl : list Z) :
  identity_dict d → identity_dict (<["hkl" := PList (PInt <$> hkl)]> d).
Proof.
  intros Hd k v. destruct (decide (k = "hkl")) as [->|Hne].
  - rewrite lookup_insert_eq. intros [= <-]. left. eauto.
  - rewrite lookup_insert_ne by done. apply Hd.
Qed.

Lemma identity_dict_ligand d fm :
  identity_dict d → identity_dict (<["ligand" := PStr fm]> d).
Proof.
  intros Hd k v. destruct (decide (k = "ligand")) as [->|Hne].
  - rewrite lookup_insert_eq. intros [= <-]. right. eauto.
  - rewrite lookup_insert_ne by done. apply Hd.
Qed.

Lemma obeys_manifest jd d :
  d ≠ ∅ → identity_dict d → obeys writes_manifests any (json_dump jd "system.json" d).
Proof.
  intros Hne Hd w w' o. unfold json_dump, bind, write_file, modify.
  assert (Hm : identity_manifest (jd +:+ sep +:+ "system.json") (FJson d))
    by (exists jd, d; done).
  destruct (_ && _); intros H; inversion H; subst; (split; [|done]); [|reflexivity].
  split.
  - intros p f. simpl. destruct (decide (p = jd +:+ sep +:+ "system.json")) as [->|Hp].
    + rewrite lookup_insert_eq. intros [= <-]. by right.
    + rewrite lookup_insert_ne by done. auto.
  - exists [EvWrite (jd +:+ sep +:+ "system.json") (FJson d)]. split; [done|].
    by repeat constructor.
Qed.

Section InterfaceWrites.

Variable new_job : path → Job.
Variable self : MeasurementInterface.

Lemma job_writes_nothing cal i jdir :
  cal ∉ cal_slabs self → cal ∉ cal_interfaces self →
  obeys writes_nothing (λ d, d = ∅) (MeasurementInterface_setup_job new_job self cal i jdir ∅).
Proof.
  intros Hs Hi. unfold MeasurementInterface_setup_job.
  rewrite !bool_decide_eq_false_2 by done. simpl.
  apply (obeys_bind _ any); [apply obeys_read_attr; apply _|]. intros olds _.
  apply (obeys_bind _ any); [apply obeys_index; apply _|]. intros job _.
  apply (obeys_bind _ any); [apply obeys_from_file; apply _|]. intros p _.
  apply (obeys_bind _ any); [apply writes_nothing_update|]. intros _ _.
  apply (obeys_bind _ (λ d, d = ∅)); [apply obeys_ret; try apply _; done|]. intros d1 ->.
  apply (obeys_bind _ (λ d, d = ∅)); [apply obeys_ret; try apply _; done|]. intros d2 ->.
  apply (obeys_bind _ any); [apply obeys_get; apply _|]. intros ex _.
  apply (obeys_bind _ any).
  { destruct (negb ex); [|apply obeys_skip; apply _].
    apply writes_nothing_makedirs. }
  intros _ _. rewrite bool_decide_eq_false_2 by (intros H; by apply H).
  apply (obeys_bind _ any); [apply obeys_skip; apply _|]. intros _ _.
  apply (obeys_bind _ any).
  { apply writes_nothing_register. }
  intros _ _. apply obeys_ret; try apply _; done.
Qed.

(** X14. When no handle of [cal_objs] is in the slab or the interface
    bucket, the interface [setup()] writes no file, whatever its outcome:
    the files are those it found and its trace holds no write and no copy. *)
Theorem interface_setup_without_identity_writes_nothing w :
  (∀ c, c ∈ cal_objs (int_base self) → (c ∉ cal_slabs self) ∧ (c ∉ cal_interfaces self)) →
  let w' := (MeasurementInterface_setup new_job self w).1 in
  files w' = files w ∧ ∃ evs, trace w' = trace w ++ evs ∧ Forall not_write evs.
Proof.
  intros Hall. destruct (MeasurementInterface_setup new_job self w) as [w' o] eqn:Hrun. simpl.
  revert w w' o Hrun. unfold MeasurementInterface_setup.
  cut (obeys writes_nothing (@any unit)
         (for_fold (cal_objs (int_base self)) ∅ (MeasurementInterface_setup_cal new_job self) ;;
          ret tt)).
  { intros Hob w w' o Hrun. by destruct (Hob _ _ _ Hrun). }
  apply (obeys_bind _ (λ d, d = ∅)); [|intros; apply obeys_skip; apply _].
  apply obeys_for_fold; [apply _| |done]. intros cal d Hcal ->.
  destruct (Hall cal Hcal) as [Hs Hi]. unfold MeasurementInterface_setup_cal.
  apply (obeys_bind _ any); [apply writes_nothing_update|]. intros _ _.
  apply (obeys_bind _ any); [apply obeys_read_attr; apply _|]. intros ds _.
  apply obeys_for_fold; [apply _| |done]. intros [i jdir] d _ ->.
  by apply job_writes_nothing.
Qed.

Lemma job_writes_manifests cal i jdir d :
  identity_dict d →
  obeys writes_manifests identity_dict (MeasurementInterface_setup_job new_job self cal i jdir d).
Proof.
  intros Hd. unfold MeasurementInterface_setup_job.
  assert (Hlog : ∀ d', identity_dict d' →
            obeys writes_manifests identity_dict (log CRITICAL no_system [] ;; ret d')).
  { intros d' Hd'. apply (obeys_bind _ any); [|intros; apply obeys_ret; try apply _; done].
    apply writes_manifests_log. }
  apply (obeys_bind _ any); [apply obeys_read_attr; apply _|]. intros olds _.
  apply (obeys_bind _ any); [apply obeys_index; apply _|]. intros job _.
  apply (obeys_bind _ any); [apply obeys_from_file; apply _|]. intros p _.
  apply (obeys_bind _ any); [apply writes_manifests_update|]. intros _ _.
  apply (obeys_bind _ identity_dict).
  { destruct (_ || _); [|apply obeys_ret; try apply _; done].
    apply obeys_try; [apply _|apply obeys_read_miller_index; apply _| |by apply Hlog].
    intros hkl. by apply identity_dict_hkl. }
  intros d1 Hd1. apply (obeys_bind _ identity_dict).
  { destruct (bool_decide (cal ∈ cal_interfaces self)); [|apply obeys_ret; try apply _; done].
    apply obeys_try; [apply _|apply obeys_read_formula; apply _| |by apply Hlog].
    intros fm. by apply identity_dict_ligand. }
  intros d2 Hd2.
  apply (obeys_bind _ any); [apply obeys_get; apply _|]. intros ex _.
  apply (obeys_bind _ any).
  { destruct (negb ex); [|apply obeys_skip; apply _].
    apply writes_manifests_makedirs. }
  intros _ _. apply (obeys_bind _ any).
  { case_bool_decide; [by apply obeys_manifest|apply obeys_skip; apply _]. }
  intros _ _. apply (obeys_bind _ any).
  { apply writes_manifests_register. }
  intros _ _. apply obeys_ret; try apply _; done.
Qed.

(** X15. Whatever its outcome, all that the interface [setup()] writes are
    manifests: every file it leaves behind was there before or is the
    [system.json] of a job directory holding a non-empty dict whose only
    keys are [hkl], a list of ints, and [ligand], a string; it copies
    nothing. *)
Theorem interface_setup_writes_identity_manifests_only w :
  let w' := (MeasurementInterface_setup new_job self w).1 in
  (∀ p f, files w' !! p = Some f → files w !! p = Some f ∨ identity_manifest p f)
  ∧ ∃ evs, trace w' = trace w ++ evs ∧ Forall manifest_event evs.
Proof.
  destruct (MeasurementInterface_setup new_job self w) as [w' o] eqn:Hrun. simpl.
  revert w w' o Hrun. unfold MeasurementInterface_setup.
  cut (obeys writes_manifests (@any unit)
         (for_fold (cal_objs (int_base self)) ∅ (MeasurementInterface_setup_cal new_job self) ;;
          ret tt)).
  { intros Hob w w' o Hrun. by destruct (Hob _ _ _ Hrun). }
  apply (obeys_bind _ identity_dict); [|intros; apply obeys_skip; apply _].
  apply obeys_for_fold; [apply _| |apply identity_dict_empty]. intros cal d _ Hd.
  unfold MeasurementInterface_setup_cal.
  apply (obeys_bind _ any); [apply writes_manifests_update|]. intros _ _.
  apply (obeys_bind _ any); [apply obeys_read_attr; apply _|]. intros ds _.
  apply obeys_for_fold; [apply _| |done]. intros [i jdir] d' _ Hd'.
  by apply job_writes_manifests.
Qed.

End InterfaceWrites.

(** ** Handles without a system *)




Section WithoutSystem.

Variable new_job : path → Job.
Variable self : MeasurementInterface.







End WithoutSystem.

(** ** The manifest of an interface handle *)

Lemma miller_index_present cal (d : gmap string pyval) w sys hkl :
  system (store w cal) = Some sys → miller_index sys = Some hkl →
  match read_miller_index cal w with
  | (w', Return hkl) => (w', Return (<["hkl" := PList (PInt <$> hkl)]> d))
  | (w', Raise _) => (log CRITICAL no_system [] ;; ret d) w'
  end = (w, Return (<["hkl" := PList (PInt <$> hkl)]> d)).
Proof. intros H1 H2. by rewrite (read_miller_index_run _ _ _ _ H1 H2). Qed.

Lemma formula_present cal (d : gmap string pyval) w sys fm :
  system (store w cal) = Some sys → ligand_formula sys = Some fm →
  match read_formula cal w with
  | (w', Return f) => (w', Return (<["ligand" := PStr f]> d))
  | (w', Raise _) => (log CRITICAL no_system [] ;; ret d) w'
  end = (w, Return (<["ligand" := PStr fm]> d)).
Proof. intros H1 H2. by rewrite (read_formula_run _ _ _ _ H1 H2). Qed.

(** Setting both keys of a dict of identity keys leaves nothing of it. *)
Lemma identity_overwritten d hkl fm :
  identity_dict d →
  <["ligand" := PStr fm]> (<["hkl" := PList (PInt <$> hkl)]> d) = identity_of hkl fm.
Proof.
  intros Hd. apply map_eq. intros k. unfold identity_of.
  destruct (decide (k = "ligand")) as [->|Hl]; [by rewrite !lookup_insert_eq|].
  rewrite !(lookup_insert_ne _ "ligand") by done.
  destruct (decide (k = "hkl")) as [->|Hh]; [by rewrite !lookup_insert_eq|].
  rewrite !(lookup_insert_ne _ "hkl") by done. rewrite lookup_empty.
  destruct (d !! k) as [v|] eqn:Hk; [|done].
  by destruct (Hd k v Hk) as [[? _]|[? _]].
Qed.

Section InterfaceManifest.

Variable new_job : path → Job.
Variable self : MeasurementInterface.

(** X17. One pass of the inner loop of the interface [setup()] over an
    interface handle whose system has a Miller index and a ligand formula:
    whatever identity keys the dict has collected from the handles before,
    the pass overwrites both, so the manifest it writes into the [STATIC]
    directory holds exactly the handle's own [hkl] and [ligand]; the
    directory is created when it is not there, and the job is registered
    after the manifest is written. *)
Theorem interface_manifest_is_own_identity cal i jdir d w sys hkl fm j p :
  cal ∈ cal_interfaces self →
  system (store w cal) = Some sys →
  miller_index sys = Some hkl →
  ligand_formula sys = Some fm →
  prior_jobs w cal !! i = Some j →
  files w !! contcar jdir = Some p →
  files w !! static_dir (int_base self) j = None ∨ static_dir (int_base self) j ∈ dirs w →
  manifest (static_dir (int_base self) j) ∉ dirs w →
  identity_dict d →
  let jd := static_dir (int_base self) j in
  ∃ w',
    MeasurementInterface_setup_job new_job self cal i jdir d w = (w', Return (identity_of hkl fm))
    ∧ files w' = <[manifest jd := FJson (identity_of hkl fm)]> (files w)
    ∧ trace w' = trace w ++ (if decide (jd ∈ dirs w) then [] else [EvMakedirs jd])
                 ++ [EvWrite (manifest jd) (FJson (identity_of hkl fm)); EvAddJob cal jd]
    ∧ poscar (store w' cal) = Some p
    ∧ job_dir_list (store w' cal) = job_dir_list (store w cal) ++ [jd].
Proof.
  intros Hcal Hsys Hhkl Hfm Hj Hp Hjd Hman Hd jd. unfold prior_jobs in Hj.
  destruct (old_jobs (store w cal)) as [olds|] eqn:Hold; [|simpl in Hj; done].
  simpl in Hj.
  unfold MeasurementInterface_setup_job.
  erewrite bind_run by (by apply read_attr_run).
  erewrite bind_run by (by apply index_run).
  cbv zeta. fold (static_dir (int_base self) j). fold jd.
  erewrite bind_run by (unfold Poscar_from_file; rewrite Hp; reflexivity).
  erewrite bind_run by reflexivity.
  set (w1 := set_store _ w).
  assert (Hsys1 : system (store w1 cal) = Some sys).
  { unfold w1. simpl. by rewrite store_update_eq. }
  rewrite (bool_decide_eq_true_2 _ Hcal), orb_true_r.
  erewrite bind_run by (by eapply miller_index_present).
  erewrite bind_run by (by eapply formula_present).
  rewrite (identity_overwritten d hkl fm Hd).
  assert (Hne : identity_of hkl fm ≠ ∅) by apply insert_non_empty.
  rewrite (bool_decide_eq_true_2 _ Hne).
  destruct (prepare_dir jd
              (λ _, json_dump jd "system.json" (identity_of hkl fm) ;;
                    add_job new_job cal jd ;; ret (identity_of hkl fm)) w1 Hjd)
    as (w2 & Hrun & F2 & D2 & T2 & S2).
  rewrite Hrun. clear Hrun. cbv beta.
  erewrite bind_run.
  2:{ apply json_dump_run.
      - rewrite D2. apply elem_of_union_l. by apply elem_of_singleton.
      - rewrite D2. intros [?%elem_of_singleton|?]%elem_of_union; [|done].
        by eapply manifest_ne_dir. }
  eexists. split; [reflexivity|]. simpl. rewrite store_update_eq, F2, T2, S2. simpl.
  rewrite store_update_eq. simpl.
  split_and!; try done. by rewrite <- !app_assoc.
Qed.

End InterfaceManifest.

(** ** When derived directories coincide *)

Lemma append_inj_l s x y : s +:+ x = s +:+ y → x = y.
Proof. induction s as [|c s IH]; [done|]. rewrite !append_cons. intros [= H]. auto. Qed.

Lemma replace_no_sep n : no_sep (replace "."%char "_"%char (replace os_sep "_"%char n)).
Proof.
  induction n as [|c n IH]; [done|]. simpl. split; [|done].
  destruct (Ascii.eqb_spec c os_sep) as [->|Hc]; [done|].
  by destruct (Ascii.eqb_spec c "."%char).
Qed.

(** A path splits at its first separator in one way only. *)
Lemma split_unique x : ∀ y s t,
  no_sep x → no_sep y → x +:+ sep +:+ s = y +:+ sep +:+ t → x = y ∧ s = t.
Proof.
  induction x as [|c x IH]; intros [|c' y] s t Hx Hy Heq.
  - split; [done|]. by inversion Heq.
  - rewrite append_cons in Heq. inversion Heq; subst. by destruct Hy.
  - rewrite append_cons in Heq. inversion Heq; subst. by destruct Hx.
  - rewrite !append_cons in Heq. inversion Heq; subst.
    destruct Hx as [_ Hx], Hy as [_ Hy].
    destruct (IH y s t Hx Hy) as [-> ->]; done.
Qed.

Lemma replace_twice_flat n i :
  String.get i (replace "."%char "_"%char (replace os_sep "_"%char n)) = flat <$> String.get i n.
Proof. apply replace_twice_sanitized. Qed.

(** X18. Two derived directories under the same base coincide exactly when
    the suffixes are equal and the prior job names are equal once every
    path separator and every dot is read as an underscore.  So the
    [STATIC] and [SOL] directories of a prior job never clash, while prior
    jobs whose names differ only in separators, dots and underscores are
    derived into one and the same directory. *)
Theorem derived_dirs_coincide base n1 n2 s1 s2 :
  derived_dir base n1 s1 = derived_dir base n2 s2
  ↔ s1 = s2 ∧ ∀ i, flat <$> String.get i n1 = flat <$> String.get i n2.
Proof.
  unfold derived_dir. split.
  - intros Heq%append_inj_l%append_inj_l.
    apply split_unique in Heq as [Hn ->]; [|apply replace_no_sep..].
    split; [done|]. intros i. by rewrite <- !replace_twice_flat, Hn.
  - intros [-> Hget]. do 2 f_equal.
    assert (replace "."%char "_"%char (replace os_sep "_"%char n1)
            = replace "."%char "_"%char (replace os_sep "_"%char n2)) as ->; [|done].
    apply String.get_correct. intros i. by rewrite !replace_twice_flat.
Qed.

(** ** What the generic step leaves on a handle *)

Section GenericHandles.

Variable new_job : path → Job.
Variable self : Measurement.





End GenericHandles.

(** ** Constructing a step and setting it up *)

Section ConstructThenSetup.

Variable new_job : path → Job.

(** X20. The flow of the module's test block, with [cal] bound to the one
    handle [c] of the step: constructing the generic step and calling
    [setup()] rotates the generations.  When [c] has a job and a [CONTCAR]
    for each of its directories, the jobs and directories it had are
    archived, its current directories are the [STATIC] directories derived
    from its former jobs, one per former directory, it has as many current
    jobs, and no file has been written. *)
Theorem construct_then_setup c jd w :
  mod_cal w = Some c →
  (length (job_dir_list (store w c)) ≤ length (jobs (store w c)))%nat →
  (∀ d, d ∈ job_dir_list (store w c) → is_Some (files w !! contcar d)) →
  ∃ w',
    (self <- Measurement_init [c] jd ;; Measurement_setup new_job self) w = (w', Return tt)
    ∧ old_jobs (store w' c) = Some (jobs (store w c))
    ∧ old_job_dir_list (store w' c) = Some (job_dir_list (store w c))
    ∧ job_dir_list (store w' c)
      = (λ j, derived_dir jd (name j) "STATIC")
          <$> take (length (job_dir_list (store w c))) (jobs (store w c))
    ∧ length (jobs (store w' c)) = length (job_dir_list (store w c))
    ∧ files w' = files w.
Proof.
  intros Hcal Hlen Hfiles.
  destruct (init_loop_spec c [c] w Hcal (NoDup_singleton c))
    as (w1 & Hinit & _ & F1 & _ & _ & _ & Hall).
  destruct (Hall 0 c eq_refl) as (Hoj & Hj & Hd & Hod).
  rewrite bool_decide_eq_false_2 in Hod by apply not_elem_of_nil.
  set (self := {| cal_objs := [c]; job_dir := jd |}).
  assert (Hpj : prior_jobs w1 c = jobs (store w c)) by (unfold prior_jobs; by rewrite Hoj).
  assert (Hpd : prior_dirs w1 c = job_dir_list (store w c)) by (unfold prior_dirs; by rewrite Hod).
  assert (Hready : ∀ c', c' ∈ cal_objs self → ready w1 c').
  { intros c' ->%list_elem_of_singleton. unfold ready. rewrite Hpj, Hpd, Hod, F1.
    split_and!; [by eexists|done|done]. }
  destruct (setup_returns new_job self w1 Hready) as [w' Hrun].
  destruct (setup_returns_inv new_job self w1 w' Hrun) as (_ & evs & G & F & Hadd).
  assert (Hc : add_jobs_for c evs
               = (λ j, derived_dir jd (name j) "STATIC")
                   <$> take (length (job_dir_list (store w c))) (jobs (store w c))).
  { rewrite Hadd. unfold calls_on, expected_static. simpl. rewrite decide_True by done.
    by rewrite app_nil_r, Hpj, Hpd. }
  exists w'. split_and!.
  - unfold Measurement_init. erewrite bind_run; [exact Hrun|].
    erewrite bind_run by exact Hinit. done.
  - by rewrite (grows_old_jobs _ _ _ G).
  - by rewrite (grows_old_dirs _ _ _ G).
  - by rewrite (grows_job_dirs _ _ _ G), Hd, Hc.
  - rewrite (grows_jobs _ _ _ G), Hj, Hc, length_fmap, length_take. simpl. lia.
  - congruence.
Qed.

End ConstructThenSetup.

(** ** The constructors in the module as imported *)

(** X21. With [cal] bound nowhere, as in the module as imported, none of
    the three steps can be constructed over a non-empty list of handles:
    the constructors of the solvation and of the interface step start with
    [Measurement.__init__] and raise its [NameError], from the same world,
    before [sol_params] or a bucket is assigned; no file, directory or log
    line is touched.  Over no handles all three return and change nothing. *)
Theorem constructors_as_imported objs jd params w :
  mod_cal w = None →
  match objs with
  | [] =>
      Measurement_init objs jd w = (w, Return {| cal_objs := []; job_dir := jd |})
      ∧ MeasurementSolvation_init objs jd params w
        = (w, Return {| sol_base := {| cal_objs := []; job_dir := jd |}; sol_params := params |})
      ∧ MeasurementInterface_init objs jd w
        = (w, Return {| int_base := {| cal_objs := []; job_dir := jd |};
                        cal_slabs := []; cal_interfaces := []; cal_ligands := [] |})
  | _ :: _ =>
      ∃ w',
        Measurement_init objs jd w = (w', Raise (NameError "cal"))
        ∧ MeasurementSolvation_init objs jd params w = (w', Raise (NameError "cal"))
        ∧ MeasurementInterface_init objs jd w = (w', Raise (NameError "cal"))
        ∧ files w' = files w ∧ dirs w' = dirs w ∧ trace w' = trace w
  end.
Proof.
  intros Hcal. destruct objs as [|obj rest].
  - by split_and!.
  - eexists.
    unfold MeasurementSolvation_init, MeasurementInterface_init, Measurement_init,
      Measurement_init_loop.
    simpl. unfold bind, update, modify, gets. simpl. rewrite Hcal. simpl.
    by split_and!.
Qed.

(** ** The further properties on concrete inputs *)


Lemma get_energy_as_imported_witness :
  get_energy 0 ex2_imported
  = (ex2_imported, if decide (job_dir_list (store ex2_imported 0) = [])
                   then Return [] else Raise (NameError "MPINTVaspDrone")).
Proof. exact (get_energy_as_imported 0 ex2_imported eq_refl). Defined.

Lemma make_measurements_only_logs_witness :
  Measurement_make_measurements ex1_self ex8_world
  = (emits (cal_objs ex1_self ≫= energy_logs ex8_assimilate ex8_world) ex8_world, Return tt).
Proof. exact (make_measurements_only_logs ex8_assimilate ex1_self ex8_world eq_refl). Defined.

Lemma make_measurements_as_imported_witness :
  Measurement_make_measurements ex1_self ex2_imported
  = (ex2_imported,
     if decide (Forall (λ c, job_dir_list (store ex2_imported c) = []) (cal_objs ex1_self))
     then Return tt else Raise (NameError "MPINTVaspDrone")).
Proof. exact (make_measurements_as_imported ex1_self ex2_imported eq_refl). Defined.

Lemma interface_measurement_never_returns_witness :
  (∃ w' e, MeasurementInterface_make_measurements ex2_self ex2_world = (w', Raise e)
           ∧ mod_E_binding w' = mod_E_binding ex2_world)
  ∧ (∃ w' e, MeasurementInterface_make_measurements ex2_self ex2_imported = (w', Raise e)).
Proof.
  split.
  - apply (interface_measurement_never_returns ex2_self ex2_world). discriminate.
  - apply (interface_measurement_never_returns ex2_self ex2_imported). reflexivity.
Defined.


Lemma init_twice_loses_the_archive_witness :
  ∃ w',
    (Measurement_init [0] "./Measurement" ;; Measurement_init [0] "./Again") ex1_world
    = (w', Return {| cal_objs := [0]; job_dir := "./Again" |})
    ∧ ∀ obj, obj ∈ [0] →
        old_jobs (store w' obj) = Some []
        ∧ old_job_dir_list (store w' obj) = Some []
        ∧ jobs (store w' obj) = []
        ∧ job_dir_list (store w' obj) = [].
Proof.
  apply (init_twice_loses_the_archive 0 [0] "./Measurement" "./Again" ex1_world).
  - reflexivity.
  - apply NoDup_singleton.
  - left.
Defined.

Lemma interface_init_buckets_witness :
  ∃ w',
    MeasurementInterface_init [0; 1; 2] "./MeasurementInterface" ex2_world = (w', Return ex2_self)
    ∧ cal_objs (int_base ex2_self) = [0; 1; 2]
    ∧ (∀ r, r ∈ cal_slabs ex2_self ↔ r ∈ [0; 1; 2] ∧ kind (store ex2_world r) = CalibrateSlab)
    ∧ (∀ r, r ∈ cal_interfaces ex2_self
            ↔ r ∈ [0; 1; 2] ∧ kind (store ex2_world r) = CalibrateInterface)
    ∧ (∀ r, r ∈ cal_ligands ex2_self
            ↔ r ∈ [0; 1; 2] ∧ kind (store ex2_world r) = CalibrateMolecule)
    ∧ cal_slabs ex2_self `sublist_of` [0; 1; 2]
    ∧ cal_interfaces ex2_self `sublist_of` [0; 1; 2]
    ∧ cal_ligands ex2_self `sublist_of` [0; 1; 2]
    ∧ (∀ r, ¬ (r ∈ cal_slabs ex2_self ∧ r ∈ cal_interfaces ex2_self)
            ∧ ¬ (r ∈ cal_slabs ex2_self ∧ r ∈ cal_ligands ex2_self)
            ∧ ¬ (r ∈ cal_interfaces ex2_self ∧ r ∈ cal_ligands ex2_self))
    ∧ (∀ r, kind (store ex2_world r) = CalibrateOther →
            (r ∉ cal_slabs ex2_self) ∧ (r ∉ cal_interfaces ex2_self)
            ∧ (r ∉ cal_ligands ex2_self)).
Proof.
  assert (Hrun : (MeasurementInterface_init [0; 1; 2] "./MeasurementInterface" ex2_world).2
                 = Return ex2_self) by (vm_compute; reflexivity).
  apply run_eq in Hrun. eexists. split; [exact Hrun|].
  exact (interface_init_buckets _ _ ex2_world _ ex2_self Hrun).
Defined.

Lemma solvation_returns_only_with_two_character_keys_witness :
  ∃ w',
    MeasurementSolvation_setup ex_new_job two_char_self (archived_world one_wavecar)
    = (w', Return tt)
    ∧ Forall (λ k, String.length k = 2) (sol_params two_char_self).*1.
Proof.
  assert (Hrun : (MeasurementSolvation_setup ex_new_job two_char_self
                    (archived_world one_wavecar)).2 = Return tt)
    by (vm_compute; reflexivity).
  assert (Hne : cal_objs (sol_base two_char_self) ≠ []) by (simpl; discriminate).
  apply run_eq in Hrun. eexists. split; [exact Hrun|].
  exact (solvation_returns_only_with_two_character_keys ex_new_job two_char_self _ _ Hne Hrun).
Defined.

Lemma solvation_without_prior_job_witness :
  ∃ w',
    MeasurementSolvation_setup ex_new_job ex7_self idle_world = (w', Raise IndexError)
    ∧ incar (store w' 0) = <["LSOL" := PStr ".TRUE."]> (incar (store idle_world 0))
    ∧ files w' = files idle_world ∧ dirs w' = dirs idle_world ∧ trace w' = trace idle_world
    ∧ jobs (store w' 0) = jobs (store idle_world 0)
    ∧ job_dir_list (store w' 0) = job_dir_list (store idle_world 0).
Proof.
  apply (solvation_without_prior_job ex_new_job ex7_self idle_world 0 []).
  - reflexivity.
  - reflexivity.
Defined.

Lemma solvation_missing_wavecar_witness :
  ∃ w',
    MeasurementSolvation_setup ex_new_job two_char_self (archived_world ∅)
    = (w', Raise (IOError (wavecar "/r/a")))
    ∧ sol_dir two_char_self {| name := "a/b.1" |} ∈ dirs w'
    ∧ files w' = <[manifest (sol_dir two_char_self {| name := "a/b.1" |})
                   := FJson (list_to_map (sol_params two_char_self))]> (files (archived_world ∅))
    ∧ trace w' = trace (archived_world ∅)
                 ++ (if decide (sol_dir two_char_self {| name := "a/b.1" |} ∈ dirs (archived_world ∅))
                     then [] else [EvMakedirs (sol_dir two_char_self {| name := "a/b.1" |})])
                 ++ [EvWrite (manifest (sol_dir two_char_self {| name := "a/b.1" |}))
                       (FJson (list_to_map (sol_params two_char_self)))]
    ∧ jobs (store w' 0) = jobs (store (archived_world ∅) 0)
    ∧ job_dir_list (store w' 0) = job_dir_list (store (archived_world ∅) 0).
Proof.
  apply (solvation_missing_wavecar ex_new_job two_char_self (archived_world ∅) 0 []
           {| name := "a/b.1" |} [ {| name := "c" |} ] "/r/a" ["/r/c"]).
  - reflexivity.
  - reflexivity.
  - reflexivity.
  - repeat constructor.
  - left. vm_compute. reflexivity.
  - refine (bool_decide_eq_false_1 _ _). vm_compute. reflexivity.
  - refine (bool_decide_eq_false_1 _ _). vm_compute. reflexivity.
  - vm_compute. reflexivity.
Defined.

Lemma solvation_single_handle_witness :
  ∃ w',
    MeasurementSolvation_setup ex_new_job two_char_self (archived_world one_wavecar)
    = (w', Return tt)
    ∧ dirs w' = {[sol_dir two_char_self {| name := "a/b.1" |}]} ∪ dirs (archived_world one_wavecar)
    ∧ files w' = <[sol_dir two_char_self {| name := "a/b.1" |} +:+ sep +:+ "WAVECAR" := FData "wave"]>
                   (<[manifest (sol_dir two_char_self {| name := "a/b.1" |})
                      := FJson (list_to_map (sol_params two_char_self))]>
                      (files (archived_world one_wavecar)))
    ∧ trace w' = trace (archived_world one_wavecar)
                 ++ (if decide (sol_dir two_char_self {| name := "a/b.1" |}
                                ∈ dirs (archived_world one_wavecar))
                     then [] else [EvMakedirs (sol_dir two_char_self {| name := "a/b.1" |})])
                 ++ [EvWrite (manifest (sol_dir two_char_self {| name := "a/b.1" |}))
                       (FJson (list_to_map (sol_params two_char_self)));
                     EvCopy (wavecar "/r/a")
                       (sol_dir two_char_self {| name := "a/b.1" |} +:+ sep +:+ "WAVECAR");
                     EvAddJob 0 (sol_dir two_char_self {| name := "a/b.1" |})]
    ∧ job_dir_list (store w' 0)
      = job_dir_list (store (archived_world one_wavecar) 0)
        ++ [sol_dir two_char_self {| name := "a/b.1" |}].
Proof.
  apply (solvation_single_handle ex_new_job two_char_self (archived_world one_wavecar) 0
           {| name := "a/b.1" |} [ {| name := "c" |} ] "/r/a" ["/r/c"] (FData "wave")).
  - reflexivity.
  - reflexivity.
  - reflexivity.
  - repeat constructor.
  - left. vm_compute. reflexivity.
  - refine (bool_decide_eq_false_1 _ _). vm_compute. reflexivity.
  - refine (bool_decide_eq_false_1 _ _). vm_compute. reflexivity.
  - vm_compute. reflexivity.
Defined.


Lemma interface_setup_without_identity_writes_nothing_witness :
  let w' := (MeasurementInterface_setup ex_new_job ligand_only_self ex10_world).1 in
  files w' = files ex10_world
  ∧ ∃ evs, trace w' = trace ex10_world ++ evs ∧ Forall not_write evs.
Proof.
  apply (interface_setup_without_identity_writes_nothing ex_new_job ligand_only_self ex10_world).
  intros c _. split; apply not_elem_of_nil.
Defined.


Lemma interface_manifest_is_own_identity_witness :
  let jd := static_dir (int_base ex10_self) {| name := "int" |} in
  ∃ w',
    MeasurementInterface_setup_job ex_new_job ex10_self 2 0 "/r/int"
      {[ "ligand" := PStr "C2H6" ]} ex10_world
    = (w', Return (identity_of [1; 0; 0]%Z "H4N2"))
    ∧ files w' = <[manifest jd := FJson (identity_of [1; 0; 0]%Z "H4N2")]> (files ex10_world)
    ∧ trace w' = trace ex10_world ++ (if decide (jd ∈ dirs ex10_world) then [] else [EvMakedirs jd])
                 ++ [EvWrite (manifest jd) (FJson (identity_of [1; 0; 0]%Z "H4N2")); EvAddJob 2 jd]
    ∧ poscar (store w' 2) = Some (FData "Pt N H")
    ∧ job_dir_list (store w' 2) = job_dir_list (store ex10_world 2) ++ [jd].
Proof.
  apply (interface_manifest_is_own_identity ex_new_job ex10_self 2 0 "/r/int"
           {[ "ligand" := PStr "C2H6" ]} ex10_world hydrazine_system [1; 0; 0]%Z "H4N2"
           {| name := "int" |} (FData "Pt N H")).
  - left.
  - reflexivity.
  - reflexivity.
  - reflexivity.
  - reflexivity.
  - vm_compute. reflexivity.
  - left. vm_compute. reflexivity.
  - refine (bool_decide_eq_false_1 _ _). vm_compute. reflexivity.
  - intros k v [<- <-]%lookup_singleton_Some. right. eauto.
Defined.

Lemma construct_then_setup_witness :
  ∃ w',
    (self <- Measurement_init [0] "./Measurement" ;; Measurement_setup ex_new_job self) ex1_world
    = (w', Return tt)
    ∧ old_jobs (store w' 0) = Some (jobs (store ex1_world 0))
    ∧ old_job_dir_list (store w' 0) = Some (job_dir_list (store ex1_world 0))
    ∧ job_dir_list (store w' 0)
      = (λ j, derived_dir "./Measurement" (name j) "STATIC")
          <$> take (length (job_dir_list (store ex1_world 0))) (jobs (store ex1_world 0))
    ∧ length (jobs (store w' 0)) = length (job_dir_list (store ex1_world 0))
    ∧ files w' = files ex1_world.
Proof.
  apply (construct_then_setup ex_new_job 0 "./Measurement" ex1_world).
  - reflexivity.
  - vm_compute. lia.
  - intros d Hd. vm_compute in Hd.
    apply elem_of_cons in Hd as [->|Hd]; [vm_compute; eauto|].
    apply list_elem_of_singleton in Hd as ->. vm_compute. eauto.
Defined.

Lemma constructors_as_imported_witness :
  ∃ w',
    Measurement_init [0] "./Measurement" (imported (λ _, two_jobs_cal) ∅ ∅)
    = (w', Raise (NameError "cal"))
    ∧ MeasurementSolvation_init [0] "./Measurement" default_sol_params
        (imported (λ _, two_jobs_cal) ∅ ∅)
      = (w', Raise (NameError "cal"))
    ∧ MeasurementInterface_init [0] "./Measurement" (imported (λ _, two_jobs_cal) ∅ ∅)
      = (w', Raise (NameError "cal"))
    ∧ files w' = files (imported (λ _, two_jobs_cal) ∅ ∅)
    ∧ dirs w' = dirs (imported (λ _, two_jobs_cal) ∅ ∅)
    ∧ trace w' = trace (imported (λ _, two_jobs_cal) ∅ ∅).
Proof.
  exact (constructors_as_imported [0] "./Measurement" default_sol_params
           (imported (λ _, two_jobs_cal) ∅ ∅) eq_refl).
Defined.
